(** * salt/modules/localemod.py: locale management on POSIX-like systems

    A shallow embedding of the execution module [locale] and the proofs of
    the properties stated about it.  Python values are modelled as follows:

    - [str] is a string of the code points below 256 ([String.string]); the
      string methods used by the module ([split], [splitlines], [strip],
      [replace], [in]) are written out below with the behaviour that
      Python 3 gives them on such a string;
    - a [dict] of strings is an insertion-ordered association list without
      duplicate keys;
    - exceptions are the constructors of [exn], and a computation either
      returns a value or raises;
    - the collaborators reached through [__salt__], [salt.utils], [os] and
      [log] are calls recorded in a trace; what they answer is given by a
      [host], whose answers may depend on everything that happened before. *)

From Stdlib Require Import String Ascii List Bool ZArith Lia.
Import ListNotations.
Open Scope list_scope.
Open Scope string_scope.

(** ** Python strings *)

Module PyStr.

(** The double quote, written by code so that no literal has to escape it. *)
Definition dquote : ascii := "034"%char.
Definition LF : ascii := "010"%char.
Definition CR : ascii := "013"%char.

Definition dq : string := String dquote "".
Definition nl : string := String LF "".

(** The characters for which [str.isspace()] holds, which are those that
    [str.strip()] removes: tab, line feed, VT, FF and carriage return (9 to
    13), the separators FS, GS, RS and US (28 to 31), the space (32), the
    next line control (133) and the no-break space (160). *)
Definition is_space (c : ascii) : bool :=
  let n := nat_of_ascii c in
  Nat.eqb n 32 || (Nat.leb 9 n && Nat.leb n 13)
  || (Nat.leb 28 n && Nat.leb n 31) || Nat.eqb n 133 || Nat.eqb n 160.

Fixpoint lstrip (s : string) : string :=
  match s with
  | "" => ""
  | String c s' => if is_space c then lstrip s' else s
  end.

Fixpoint rstrip (s : string) : string :=
  match s with
  | "" => ""
  | String c s' =>
      match rstrip s' with
      | "" => if is_space c then "" else String c ""
      | r => String c r
      end
  end.

(** [s.strip()] *)
Definition strip (s : string) : string := rstrip (lstrip s).

(** [s.replace(c, '')] for a one-character [c]. *)
Fixpoint remove_char (c : ascii) (s : string) : string :=
  match s with
  | "" => ""
  | String a s' =>
      if Ascii.eqb a c then remove_char c s' else String a (remove_char c s')
  end.

(** [s.split(sep)] for a one-character separator: never empty, one more
    field than there are separators. *)
Fixpoint split (sep : ascii) (s : string) : list string :=
  match s with
  | "" => [""]
  | String c s' =>
      if Ascii.eqb c sep then "" :: split sep s'
      else match split sep s' with
           | [] => [String c ""]
           | f :: fs => String c f :: fs
           end
  end.

(** [s.split(sep, 1)]: at most one cut, at the first separator. *)
Fixpoint split1 (sep : ascii) (s : string) : list string :=
  match s with
  | "" => [""]
  | String c s' =>
      if Ascii.eqb c sep then [""; s']
      else match split1 sep s' with
           | [] => [String c ""]
           | f :: fs => String c f :: fs
           end
  end.

(** The characters at which [str.splitlines()] ends a line, the carriage
    return apart: line feed, VT and FF (10 to 12), the separators FS, GS and
    RS (28 to 30) and the next line control (133). *)
Definition is_line_end (c : ascii) : bool :=
  let n := nat_of_ascii c in
  (Nat.leb 10 n && Nat.leb n 12) || (Nat.leb 28 n && Nat.leb n 30)
  || Nat.eqb n 133.

(** [s.splitlines()]: lines end at one of the characters above, at a
    carriage return, or at a carriage return followed by a line feed; the
    line ends are dropped and a final line end opens no empty line. *)
Fixpoint splitlines (s : string) : list string :=
  match s with
  | "" => []
  | String c s' =>
      if is_line_end c then "" :: splitlines s'
      else if Ascii.eqb c CR then
        match s' with
        | String c' s'' =>
            if Ascii.eqb c' LF then "" :: splitlines s''
            else "" :: splitlines s'
        | "" => [""]
        end
      else match splitlines s' with
           | [] => [String c ""]
           | l :: ls => String c l :: ls
           end
  end.

(** [sub in s] *)
Fixpoint contains (sub s : string) : bool :=
  String.prefix sub s ||
  match s with
  | "" => false
  | String _ s' => contains sub s'
  end.

(** The longest prefix whose characters satisfy [p], and the rest. *)
Fixpoint span (p : ascii -> bool) (s : string) : string * string :=
  match s with
  | "" => ("", "")
  | String c s' =>
      if p c then let (a, b) := span p s' in (String c a, b) else ("", s)
  end.

(** [sep.join(l)] *)
Definition join (sep : string) (l : list string) : string :=
  String.concat sep l.

End PyStr.
Import PyStr.

(** ** Dictionaries of strings *)

Definition dict := list (string * string).

Fixpoint dict_get (d : dict) (k : string) : option string :=
  match d with
  | [] => None
  | (k', v) :: d' => if String.eqb k' k then Some v else dict_get d' k
  end.

(** [d[k] = v]: an existing key keeps its place, a new one goes last. *)
Fixpoint dict_set (d : dict) (k v : string) : dict :=
  match d with
  | [] => [(k, v)]
  | (k', v') :: d' =>
      if String.eqb k' k then (k, v) :: d' else (k', v') :: dict_set d' k v
  end.

(** ** Exceptions, collaborators and the trace *)

Inductive exn : Type :=
| IndexError
| KeyError (key : string)
| UnboundLocalError (name : string)
| OSError (path : string)
| CommandExecutionError (msg : string).

Inductive outcome (A : Type) : Type :=
| Return (a : A)
| Raise (e : exn).
Arguments Return {A} a.
Arguments Raise {A} e.

(** [{retcode, stdout, stderr}] as [cmd.run_all] returns it. *)
Record cmd_result := mk_cmd_result {
  retcode : Z;
  stdout : string;
  stderr : string
}.

(** Every call that leaves the module, in the order the calls are made. *)
Inductive event : Type :=
| CmdRun (cmd : string)
| CmdRetcode (cmd : string)
| CmdRunAll (cmd : list string)
| FileSearch (path pattern : string)
| FileReplace (path pattern repl : string) (append_if_not_found : bool)
| FileTouch (path : string)
| FileExists (path : string)
| PathExists (path : string)
| ListDir (path : string)
| Which (name : string)
| LogError (msg : string).

Definition trace := list event.

(** [__grains__]: the two facts the module reads; [None] is a missing key. *)
Record grains := mk_grains {
  os : option string;
  os_family : option string
}.

(** [salt.utils.locales.split_locale] returns a dict with these keys. *)
Record locale_info := mk_locale_info {
  language : string;
  territory : string;
  codeset : string;
  charmap : string
}.

(** The host: the grains and what each collaborator answers, given the
    calls made so far.  [listdir] answers [inl msg] when [os.listdir] raises
    [OSError] with text [msg]; [which] answers [None] when the executable
    is not found.
    The three functions of [salt.utils.locales] are pure. *)
Record host := mk_host {
  host_grains : grains;
  cmd_run : trace -> string -> string;
  cmd_retcode : trace -> string -> Z;
  cmd_run_all : trace -> list string -> cmd_result;
  file_search : trace -> string -> string -> bool;
  file_exists : trace -> string -> bool;
  path_exists : trace -> string -> bool;
  listdir : trace -> string -> string + list string;
  which : trace -> string -> option string;
  split_locale : string -> locale_info;
  join_locale : locale_info -> string;
  normalize_locale : string -> outcome string
}.

(** A computation reads the trace so far and extends it. *)
Definition M (A : Type) : Type := trace -> outcome A * trace.

Definition ret {A} (a : A) : M A := fun t => (Return a, t).
Definition raise {A} (e : exn) : M A := fun t => (Raise e, t).
Definition bind {A B} (m : M A) (f : A -> M B) : M B :=
  fun t => match m t with
           | (Return a, t') => f a t'
           | (Raise e, t') => (Raise e, t')
           end.

(** A call: the answer is computed from the trace before the call, and the
    call is recorded. *)
Definition call {A} (e : event) (answer : trace -> A) : M A :=
  fun t => (Return (answer t), (t ++ [e])%list).

(** Lifting a pure result that may be an exception. *)
Definition lift {A} (o : outcome A) : M A := fun t => (o, t).

Declare Scope py_scope.
Delimit Scope py_scope with py.
Notation "x <- m ;; k" := (bind m (fun x => k))
  (at level 61, m at next level, right associativity) : py_scope.
Notation "m ;;; k" := (bind m (fun _ => k))
  (at level 61, right associativity) : py_scope.
Open Scope py_scope.

Definition log_error (msg : string) : M unit :=
  call (LogError msg) (fun _ => tt).

(** ** The module *)

(** *** systemd: [localectl] *)

Definition is_param_char (c : ascii) : bool :=
  let n := nat_of_ascii c in
  (Nat.leb 65 n && Nat.leb n 90) || Nat.eqb n 95.

(** [re.match] of the parameter pattern (anchored at both ends: one or more
    of [A-Z_] as the key, an equals sign, any characters as the value):
    [Some (key, val)] for the two groups, [None] when there is no match.
    The dot matches no line feed, and the end anchor matches at the end or
    before a final line feed. *)
Definition re_match_param (s : string) : option (string * string) :=
  let (key, rest) := span is_param_char s in
  match key, rest with
  | String _ _, String c rest' =>
      if Ascii.eqb c "="%char then
        let (val, tail) := span (fun a => negb (Ascii.eqb a LF)) rest' in
        if String.eqb tail "" || String.eqb tail nl
        then Some (key, val) else None
      else None
  | _, _ => None
  end.

Definition odd_parameter_msg (col : string) : string :=
  "Odd locale parameter " ++ dq ++ col ++ dq ++
  " detected in localectl output. This should not happen. localectl should catch this. You should probably investigate what caused this.".

(** The loop variables of [_parse_localectl]: [ret], and [cur_param],
    which is unbound ([None]) until a line with a colon has been read. *)
Definition parse_state : Type := dict * option string.

(** One iteration of the [for line in ...] loop. *)
Definition parse_line (st : parse_state) (line : string) : M parse_state :=
  let '(ret_, cur_param) := st in
  let cols := map strip (split1 ":"%char line) in
  let '(cur_param, cols) :=
    if Nat.ltb 1 (List.length cols)
    then (hd_error cols, tl cols)
    else (cur_param, cols) in
  match cur_param with
  | None => raise (UnboundLocalError "cur_param")
  | Some p =>
      if String.eqb p "System Locale" then
        match nth_error cols 0 with
        | None => raise IndexError
        | Some col =>
            match re_match_param col with
            | None =>
                log_error (odd_parameter_msg col) ;;;
                ret (ret_, cur_param)
            | Some (key, val) =>
                ret (dict_set ret_ key (remove_char dquote val), cur_param)
            end
        end
      else ret (ret_, cur_param)
  end.

Fixpoint for_each {A S : Type} (body : S -> A -> M S) (st : S) (l : list A)
  : M S :=
  match l with
  | [] => ret st
  | x :: xs => st' <- body st x ;; for_each body st' xs
  end.

Definition _parse_localectl (h : host) : M dict :=
  out <- call (CmdRun "localectl") (fun t => cmd_run h t "localectl") ;;
  st <- for_each parse_line ([], None) (splitlines out) ;;
  ret (fst st).

Definition _localectl_get (h : host) : M string :=
  params <- _parse_localectl h ;;
  ret (match dict_get params "LANG" with Some v => v | None => "" end).

(** The key, an equals sign and the value between double quotes. *)
Definition format_param (kv : string * string) : string :=
  fst kv ++ "=" ++ dq ++ snd kv ++ dq.

Definition set_locale_cmd (params : dict) : string :=
  "localectl set-locale " ++ join " " (map format_param params).

Definition _localectl_set (h : host) (locale : string) : M bool :=
  locale_params <- _parse_localectl h ;;
  let locale_params := dict_set locale_params "LANG" locale in
  let cmd := set_locale_cmd locale_params in
  rc <- call (CmdRetcode cmd) (fun t => cmd_retcode h t cmd) ;;
  ret (Z.eqb rc 0).

(** *** Queries *)

Definition list_avail (h : host) : M (list string) :=
  let cmd := "locale -a" in
  out <- call (CmdRun cmd) (fun t => cmd_run h t cmd) ;;
  ret (split LF out).

(** [__grains__['os_family']] *)
Definition grain_os_family (h : host) : M string :=
  match os_family (host_grains h) with
  | Some f => ret f
  | None => raise (KeyError "os_family")
  end.

(** [out.split('=')[1]] with the double quotes removed, under
    [except IndexError]. *)
Definition lang_value (out : string) : string :=
  match nth_error (split "="%char out) 1 with
  | Some v => remove_char dquote v
  | None => ""
  end.

Definition grep_redhat : string :=
  "grep " ++ dq ++ "^LANG=" ++ dq ++ " /etc/sysconfig/i18n".
Definition grep_debian : string :=
  "grep " ++ dq ++ "^LANG=" ++ dq ++ " /etc/default/locale".

Definition get_locale (h : host) : M string :=
  fam <- grain_os_family h ;;
  if contains "Arch" fam then _localectl_get h
  else
    let extract (cmd : string) : M string :=
      out <- call (CmdRun cmd) (fun t => cmd_run h t cmd) ;;
      ret (lang_value out) in
    if contains "RedHat" fam then extract grep_redhat
    else if contains "Debian" fam then extract grep_debian
    else if contains "Gentoo" fam then
      let cmd := "eselect --brief locale show" in
      out <- call (CmdRun cmd) (fun t => cmd_run h t cmd) ;;
      ret (strip out)
    else extract "".

(** *** Setting the locale *)

Definition lang_pattern : string := "^LANG=.*".

(** The replacement line: LANG, an equals sign and the locale between
    double quotes. *)
Definition lang_line (locale : string) : string :=
  "LANG=" ++ dq ++ locale ++ dq.

Definition update_locale_missing : string :=
  "Cannot set locale: " ++ dq ++ "update-locale" ++ dq ++ " was not found.".

Definition set_locale (h : host) (locale : string) : M bool :=
  fam <- grain_os_family h ;;
  if contains "Arch" fam then _localectl_set h locale
  else if contains "RedHat" fam then
    let path := "/etc/sysconfig/i18n" in
    present <- call (FileExists path) (fun t => file_exists h t path) ;;
    (if negb present then call (FileTouch path) (fun _ => tt) else ret tt) ;;;
    call (FileReplace path lang_pattern (lang_line locale) true)
         (fun _ => tt) ;;;
    ret true
  else if contains "Debian" fam then
    update_locale <- call (Which "update-locale")
                          (fun t => which h t "update-locale") ;;
    match update_locale with
    | None => raise (CommandExecutionError update_locale_missing)
    | Some exe =>
        call (CmdRun exe) (fun t => cmd_run h t exe) ;;;
        call (FileReplace "/etc/default/locale" lang_pattern
                          (lang_line locale) true) (fun _ => tt) ;;;
        ret true
    end
  else if contains "Gentoo" fam then
    let cmd := "eselect --brief locale set " ++ locale in
    rc <- call (CmdRetcode cmd) (fun t => cmd_retcode h t cmd) ;;
    ret (Z.eqb rc 0)
  else ret true.

(** *** Availability *)

(** [next((True for x in avail_locales if normalize(x.strip()) == target),
    False)]: the generator is consumed up to the first match, and an
    exception of the normaliser leaves it at once. *)
Fixpoint next_match (normalize : string -> outcome string) (target : string)
  (avail_locales : list string) : outcome bool :=
  match avail_locales with
  | [] => Return false
  | x :: xs =>
      match normalize (strip x) with
      | Raise e => Raise e
      | Return n =>
          if String.eqb n target then Return true
          else next_match normalize target xs
      end
  end.

Definition unable_to_validate (locale : string) : string :=
  "Unable to validate locale " ++ dq ++ locale ++ dq.

Definition avail (h : host) (locale : string) : M bool :=
  match normalize_locale h locale with
  | Raise IndexError =>
      log_error (unable_to_validate locale) ;;;
      ret false
  | Raise e => raise e
  | Return normalized_locale =>
      avail_locales <- list_avail h ;;
      lift (next_match (normalize_locale h) normalized_locale avail_locales)
  end.

(** *** Generating a locale *)

(** [__grains__.get(key) == name] *)
Definition grain_is (g : option string) (name : string) : bool :=
  match g with
  | Some v => String.eqb v name
  | None => false
  end.

(** [locale_info['charmap'] = v] *)
Definition set_charmap (i : locale_info) (v : string) : locale_info :=
  mk_locale_info (language i) (territory i) (codeset i) v.

(** The language, an underscore and the territory. *)
Definition lang_territory (i : locale_info) : string :=
  language i ++ "_" ++ territory i.

(** What [gen_locale] returns: a boolean, or the result of the command when
    [verbose] was asked for. *)
Inductive gen_result : Type :=
| GenBool (b : bool)
| GenResult (r : cmd_result).

(** The validation leaves [valid], and the [locale], [locale_info] and
    [search] that the rest of the function reads. *)
Record validated := mk_validated {
  v_valid : bool;
  v_locale : string;
  v_info : locale_info;
  v_search : string
}.

Definition supported_file : string := "/usr/share/i18n/SUPPORTED".

(** The anchored pattern handed to [file.search]. *)
Definition line_pattern (locale : string) : string := "^" ++ locale ++ "$".

Definition not_available (locale : string) : string :=
  "Locale " ++ dq ++ locale ++ dq ++ " is not available.".

Definition not_found_in (locale search : string) : string :=
  "The provided locale " ++ dq ++ locale ++ dq ++ " is not found in " ++ search.

Definition no_compiler : string :=
  "Command " ++ dq ++ "locale-gen" ++ dq ++ " or " ++ dq ++ "localedef" ++ dq
  ++ " was not found on this system.".

(** Lines 203 to 206: the four flags read off the grains. *)
Definition on_debian (h : host) : bool := grain_is (os (host_grains h)) "Debian".
Definition on_ubuntu (h : host) : bool := grain_is (os (host_grains h)) "Ubuntu".
Definition on_gentoo (h : host) : bool :=
  grain_is (os_family (host_grains h)) "Gentoo".
Definition on_suse (h : host) : bool :=
  grain_is (os_family (host_grains h)) "Suse".

(** The directory of the directory-based search. *)
Definition search_dir (h : host) : string :=
  if on_suse h then "/usr/share/locale" else "/usr/share/i18n/locales".

(** Lines 207 to 227: the search in the SUPPORTED file, or in the directory
    of locale definitions. *)
Definition gen_locale_validate (h : host) (locale : string) : M validated :=
  let locale_info := split_locale h locale in
  if on_debian h || on_gentoo h then
    let search := supported_file in
    valid <- call (FileSearch search (line_pattern locale))
                  (fun t => file_search h t search (line_pattern locale)) ;;
    if negb valid && String.eqb (charmap locale_info) "" then
      let locale_info := set_charmap locale_info (codeset locale_info) in
      let locale := join_locale h locale_info in
      valid <- call (FileSearch search (line_pattern locale))
                    (fun t => file_search h t search (line_pattern locale)) ;;
      ret (mk_validated valid locale locale_info search)
    else ret (mk_validated valid locale locale_info search)
  else
    let search := search_dir h in
    entries <- call (ListDir search) (fun t => listdir h t search) ;;
    match entries with
    | inl ex =>
        log_error ex ;;;
        raise (CommandExecutionError (not_available locale))
    | inr names =>
        let valid := existsb (String.eqb (lang_territory locale_info)) names in
        ret (mk_validated valid locale locale_info search)
    end.

Definition locale_gen_pattern (locale : string) : string :=
  "^\s*#\s*" ++ locale ++ "\s*$".

Definition supported_d (i : locale_info) : string :=
  "/var/lib/locales/supported.d/" ++ language i.

(** Lines 233 to 249: the locale is written to [/etc/locale.gen], or on
    Ubuntu to the file of its language. *)
Definition gen_locale_register (h : host) (locale : string)
  (locale_info : locale_info) : M unit :=
  present <- call (PathExists "/etc/locale.gen")
                  (fun t => path_exists h t "/etc/locale.gen") ;;
  if present then
    call (FileReplace "/etc/locale.gen" (locale_gen_pattern locale) locale
                      true) (fun _ => tt)
  else if on_ubuntu h then
    call (FileTouch (supported_d locale_info)) (fun _ => tt) ;;;
    call (FileReplace (supported_d locale_info) locale locale true)
         (fun _ => tt)
  else ret tt.

Definition locale_gen_cmd (h : host) (locale : string) : list string :=
  (["locale-gen"]
     ++ (if on_gentoo h then ["--generate"] else [])
     ++ (if negb (on_ubuntu h) then [locale] else []))%list.

Definition localedef_cmd (locale : string) (locale_info : locale_info)
  (verbose : bool) : list string :=
  (["localedef"; "--force";
    "-i"; lang_territory locale_info;
    "-f"; codeset locale_info;
    locale]
     ++ [if verbose then "--verbose" else "--quiet"])%list.

(** Lines 251 to 265: the command that compiles the locale. *)
Definition gen_locale_command (h : host) (locale : string)
  (locale_info : locale_info) (verbose : bool) : M (list string) :=
  locale_gen <- call (Which "locale-gen") (fun t => which h t "locale-gen") ;;
  match locale_gen with
  | Some _ => ret (locale_gen_cmd h locale)
  | None =>
      localedef <- call (Which "localedef")
                        (fun t => which h t "localedef") ;;
      match localedef with
      | Some _ => ret (localedef_cmd locale locale_info verbose)
      | None => raise (CommandExecutionError no_compiler)
      end
  end.

(** Lines 267 to 274: the command is run and its result reported. *)
Definition run_compiler (h : host) (cmd : list string) (verbose : bool)
  : M gen_result :=
  res <- call (CmdRunAll cmd) (fun t => cmd_run_all h t cmd) ;;
  (if negb (Z.eqb (retcode res) 0) then log_error (stderr res)
   else ret tt) ;;;
  if verbose then ret (GenResult res)
  else ret (GenBool (Z.eqb (retcode res) 0)).

(** Lines 233 to 274, which read [locale] and [locale_info] as the
    validation left them. *)
Definition gen_locale_compile (h : host) (locale : string)
  (locale_info : locale_info) (verbose : bool) : M gen_result :=
  gen_locale_register h locale locale_info ;;;
  cmd <- gen_locale_command h locale locale_info verbose ;;
  run_compiler h cmd verbose.

Definition gen_locale (h : host) (locale : string) (verbose : bool)
  : M gen_result :=
  v <- gen_locale_validate h locale ;;
  let locale := v_locale v in
  let locale_info := v_info v in
  if negb (v_valid v) then
    log_error (not_found_in locale (v_search v)) ;;;
    ret (GenBool false)
  else gen_locale_compile h locale locale_info verbose.

(** ** The file edit behind [set_locale] *)

(** Modelled from the spec: [file.replace] of salt/modules/file.py, which is
    not among the sources, as [set_locale] calls it: with the pattern
    [lang_pattern], a replacement line and [append_if_not_found=True].  The
    spec: find a line matching the pattern; replace it with the replacement;
    if no such line exists, append one.  A file is its content, a byte
    string, and its lines are the fields between line feeds.  A line matches
    when it starts with LANG=; the match runs to the end of the line, so
    the whole line is replaced, and so is every line that matches.  An
    appended line starts on a line of its own and ends with a line feed. *)
Definition matches_lang (line : string) : bool := String.prefix "LANG=" line.

Definition replace_line (repl line : string) : string :=
  if matches_lang line then repl else line.

Fixpoint append_line (lines : list string) (repl : string) : list string :=
  match lines with
  | [] => [repl; ""]
  | [""] => [repl; ""]
  | l :: ls => l :: append_line ls repl
  end.

Definition edit_lines (repl : string) (lines : list string) : list string :=
  if existsb matches_lang lines
  then map (replace_line repl) lines
  else append_line lines repl.

Definition file_replace_lang (repl content : string) : string :=
  join nl (edit_lines repl (split LF content)).

(** The text after the first occurrence of [sep], when there is one: the
    reading of the value of LANG that the description of [get_locale]
    gives. *)
Definition text_after_first (sep : ascii) (s : string) : option string :=
  nth_error (split1 sep s) 1.

(** [c in s] for a single character. *)
Fixpoint has_char (c : ascii) (s : string) : bool :=
  match s with
  | "" => false
  | String a s' => Ascii.eqb a c || has_char c s'
  end.

(** The pairs of a dict whose key is not [k], in their order. *)
Definition without_key (k : string) (d : dict) : dict :=
  filter (fun kv => negb (String.eqb (fst kv) k)) d.

(** ** Sample hosts

    Hosts on which the statements below are run.  The functions of
    [salt.utils.locales] are not among the sources; the samples follow the
    format of the docstring of [gen_locale] (language, underscore, territory,
    dot, codeset, then a space and the charmap), compare locales in lower
    case without hyphens, and refuse the empty string. *)

Definition cut (sep : ascii) (s : string) : string * string :=
  match split1 sep s with
  | [a; b] => (a, b)
  | _ => (s, "")
  end.

Definition sample_split (loc : string) : locale_info :=
  let (w, cm) := cut " " loc in
  let (w, cs) := cut "." w in
  let (l, t) := cut "_" w in
  mk_locale_info l t cs cm.

Definition sample_join (i : locale_info) : string :=
  language i
  ++ (if String.eqb (territory i) "" then "" else "_" ++ territory i)
  ++ (if String.eqb (codeset i) "" then "" else "." ++ codeset i)
  ++ (if String.eqb (charmap i) "" then "" else " " ++ charmap i).

Definition lower (c : ascii) : ascii :=
  let n := nat_of_ascii c in
  if Nat.leb 65 n && Nat.leb n 90 then ascii_of_nat (n + 32) else c.

Fixpoint lowercase (s : string) : string :=
  match s with
  | "" => ""
  | String c s' => String (lower c) (lowercase s')
  end.

Definition sample_normalize (loc : string) : outcome string :=
  if String.eqb loc "" then Raise IndexError
  else Return (remove_char "-" (lowercase loc)).

(** A host whose answers do not depend on the calls made before: every
    command prints [out] and exits with [rc], [found] lists the patterns
    that [file.search] finds, [dir] is what [os.listdir] answers and
    [tools] the executables on the search path; every file exists. *)
Definition sample_host (g : grains) (out : string) (rc : Z)
  (found : list string) (dir : string + list string) (tools : list string)
  : host :=
  {| host_grains := g;
     cmd_run := fun _ _ => out;
     cmd_retcode := fun _ _ => rc;
     cmd_run_all := fun _ _ => mk_cmd_result rc out "";
     file_search := fun _ _ pat => existsb (String.eqb pat) found;
     file_exists := fun _ _ => true;
     path_exists := fun _ _ => true;
     listdir := fun _ _ => dir;
     which := fun _ name =>
       if existsb (String.eqb name) tools then Some ("/usr/sbin/" ++ name)
       else None;
     split_locale := sample_split;
     join_locale := sample_join;
     normalize_locale := sample_normalize |}.

Definition arch : grains := mk_grains (Some "Arch") (Some "Arch").
Definition redhat : grains := mk_grains (Some "CentOS") (Some "RedHat").
Definition debian : grains := mk_grains (Some "Debian") (Some "Debian").
Definition ubuntu : grains := mk_grains (Some "Ubuntu") (Some "Debian").
Definition gentoo : grains := mk_grains (Some "Gentoo") (Some "Gentoo").
Definition suse : grains := mk_grains (Some "SUSE") (Some "Suse").

(** What [localectl] prints on a host with two parameters set. *)
Definition localectl_output : string :=
  "   System Locale: LANG=" ++ dq ++ "a" ++ dq ++ nl ++
  "                  LC_TIME=b" ++ nl ++
  "       VC Keymap: us" ++ nl ++
  "      X11 Layout: n/a" ++ nl.

(** How an entry of the list of available locales compares with the
    normalised request [n]: it normalises to it, to something else, or at
    all. *)
Definition normalizes_to (normalize : string -> outcome string) (n x : string)
  : bool :=
  match normalize (strip x) with
  | Return m => String.eqb m n
  | Raise _ => false
  end.

Definition normalizes_off (normalize : string -> outcome string)
  (n x : string) : bool :=
  match normalize (strip x) with
  | Return m => negb (String.eqb m n)
  | Raise _ => false
  end.

Definition normalizes (normalize : string -> outcome string) (x : string)
  : bool :=
  match normalize (strip x) with
  | Return _ => true
  | Raise _ => false
  end.

(** The calls of the registration step for [locale], on a host where
    [/etc/locale.gen] exists or not. *)
Definition register_events (h : host) (present : bool) (locale : string)
  (i : locale_info) : list event :=
  PathExists "/etc/locale.gen" ::
  (if present then
     [FileReplace "/etc/locale.gen" ("^\s*#\s*" ++ locale ++ "\s*$") locale true]
   else if on_ubuntu h then
     [FileTouch ("/var/lib/locales/supported.d/" ++ language i);
      FileReplace ("/var/lib/locales/supported.d/" ++ language i)
                  locale locale true]
   else []).

(** What running the compiler adds to the trace. *)
Definition compiler_events (cmd : list string) (res : cmd_result)
  : list event :=
  CmdRunAll cmd ::
  (if Z.eqb (retcode res) 0 then [] else [LogError (stderr res)]).

(** ** Vocabulary of the further properties *)

(** Every character of [s] satisfies [p]. *)
Fixpoint all_chars (p : ascii -> bool) (s : string) : bool :=
  match s with
  | "" => true
  | String c s' => p c && all_chars p s'
  end.

(** A key as the parameter pattern takes it: one or more of [A-Z_]. *)
Definition is_param_key (k : string) : bool :=
  negb (String.eqb k "") && all_chars is_param_char k.

Definition is_log (e : event) : bool :=
  match e with
  | LogError _ => true
  | _ => false
  end.

(** The calls that look something up: a search in a file, the listing of
    a directory, a test for a path or an executable, and the log. *)
Definition only_looks (e : event) : bool :=
  match e with
  | FileSearch _ _ | ListDir _ | FileExists _ | PathExists _ | Which _
  | LogError _ => true
  | _ => false
  end.

(** The calls that [set_locale] may make for [locale] apart from running a
    command: the test for and the creation of [/etc/sysconfig/i18n], the
    search for an executable, the log, and the replacement of the LANG
    line, in one of the two files, by the line of [locale]. *)
Definition set_locale_call (locale : string) (e : event) : Prop :=
  match e with
  | FileReplace path pattern repl append =>
      (path = "/etc/sysconfig/i18n" \/ path = "/etc/default/locale")
      /\ pattern = lang_pattern /\ repl = lang_line locale /\ append = true
  | FileTouch path => path = "/etc/sysconfig/i18n"
  | FileExists path => path = "/etc/sysconfig/i18n"
  | Which name => name = "update-locale"
  | CmdRun _ | CmdRetcode _ | LogError _ => True
  | _ => False
  end.

(** * Properties *)

(** Unfolds the plumbing of [M] so that a computation reduces on a trace. *)
Ltac run :=
  unfold log_error, bind, call, ret, raise, lift in *; simpl in *.

(** ** Strings *)

Section SplitFacts.

Variable sep : ascii.

Lemma split_nonempty (s : string) : split sep s <> [].
Proof.
  destruct s as [|c s]; simpl; [discriminate|].
  destruct (Ascii.eqb c sep); [discriminate|].
  destruct (split sep s); discriminate.
Qed.

Lemma split1_shape (s : string) :
  (has_char sep s = false /\ split1 sep s = [s]) \/
  (has_char sep s = true /\ exists a b, split1 sep s = [a; b]).
Proof.
  induction s as [|c s IH]; simpl.
  - left; split; reflexivity.
  - destruct (Ascii.eqb c sep) eqn:E; simpl.
    + right; split; [reflexivity|]. now exists "", s.
    + destruct IH as [[Hn Hs]|[Hy (a & b & Hs)]]; rewrite Hs.
      * left; split; [assumption|reflexivity].
      * right; split; [assumption|]. now exists (String c a), b.
Qed.

Lemma split1_no_sep (s : string) :
  has_char sep s = false -> split1 sep s = [s].
Proof.
  intros H. destruct (split1_shape s) as [[_ Hs]|[Hy _]]; [assumption|].
  congruence.
Qed.

Lemma split_no_sep (s : string) :
  has_char sep s = false -> split sep s = [s].
Proof.
  induction s as [|c s IH]; simpl; [reflexivity|].
  destruct (Ascii.eqb c sep); simpl; [discriminate|].
  intros H. now rewrite (IH H).
Qed.

(** Cutting at a separator cuts the list of fields. *)
Lemma split_app_sep (a b : string) :
  split sep (a ++ String sep b) = (split sep a ++ split sep b)%list.
Proof.
  induction a as [|c a IH]; simpl.
  - now rewrite Ascii.eqb_refl.
  - destruct (Ascii.eqb c sep); [now rewrite IH|].
    rewrite IH. destruct (split sep a) eqn:E; [|reflexivity].
    now apply split_nonempty in E.
Qed.

Lemma split_fields_no_sep (s : string) :
  Forall (fun f => has_char sep f = false) (split sep s).
Proof.
  induction s as [|c s IH]; simpl.
  - constructor; [reflexivity|constructor].
  - destruct (Ascii.eqb c sep) eqn:E.
    + constructor; [reflexivity|assumption].
    + destruct (split sep s) as [|f fs]; inversion IH; subst;
        constructor; simpl; try rewrite E; auto.
Qed.

Lemma join_split (s : string) : join (String sep "") (split sep s) = s.
Proof.
  unfold join. induction s as [|c s IH]; simpl; [reflexivity|].
  destruct (split sep s) as [|f fs] eqn:Es; [now apply split_nonempty in Es|].
  destruct (Ascii.eqb c sep) eqn:E.
  - apply Ascii.eqb_eq in E; subst c. simpl in *. now rewrite IH.
  - destruct fs; simpl in *; now rewrite <- IH.
Qed.

Lemma split_join (l : list string) :
  l <> [] -> Forall (fun f => has_char sep f = false) l ->
  split sep (join (String sep "") l) = l.
Proof.
  intros Hne HF. induction HF as [|f fs Hf HF IH]; [congruence|].
  destruct fs as [|g gs].
  - simpl. now apply split_no_sep.
  - unfold join in *.
    change (String.concat (String sep "") (f :: g :: gs))
      with (f ++ String sep (String.concat (String sep "") (g :: gs))).
    rewrite split_app_sep, (split_no_sep f Hf), IH; [reflexivity|discriminate].
Qed.

End SplitFacts.

(** ** systemd: parsing the output of localectl *)

Lemma parse_line_unbound (st : parse_state) (line : string) (t : trace) :
  snd st = None ->
  has_char ":" line = false ->
  parse_line st line t = (Raise (UnboundLocalError "cur_param"), t).
Proof.
  destruct st as [d c]; simpl; intros -> H.
  unfold parse_line. now rewrite (split1_no_sep _ _ H).
Qed.

(** Once [cur_param] is bound, an iteration returns and leaves it bound. *)
Lemma parse_line_bound (st : parse_state) (p line : string) (t : trace) :
  snd st = Some p ->
  exists st' p' t',
    parse_line st line t = (Return st', t') /\ snd st' = Some p'.
Proof.
  destruct st as [d c]; simpl; intros ->.
  unfold parse_line.
  destruct (split1_shape ":" line) as [[_ Hs]|[_ (a & b & Hs)]];
    rewrite Hs; simpl.
  - destruct (String.eqb p "System Locale"); run; [|do 3 eexists; split; reflexivity].
    destruct (re_match_param (strip line)) as [[k v]|]; do 3 eexists; split; reflexivity.
  - destruct (String.eqb (strip a) "System Locale"); run; [|do 3 eexists; split; reflexivity].
    destruct (re_match_param (strip b)) as [[k v]|]; do 3 eexists; split; reflexivity.
Qed.

(** A line with a colon binds [cur_param], whatever it was. *)
Lemma parse_line_colon (st : parse_state) (line : string) (t : trace) :
  has_char ":" line = true ->
  exists st' p' t',
    parse_line st line t = (Return st', t') /\ snd st' = Some p'.
Proof.
  destruct st as [d c]. intros H. unfold parse_line.
  destruct (split1_shape ":" line) as [[Hn _]|[_ (a & b & Hs)]];
    [congruence|].
  rewrite Hs; simpl.
  destruct (String.eqb (strip a) "System Locale"); run; [|do 3 eexists; split; reflexivity].
  destruct (re_match_param (strip b)) as [[k v]|]; do 3 eexists; split; reflexivity.
Qed.

Lemma for_each_parse_bound (lines : list string) :
  forall st p t, snd st = Some p ->
    exists st' t', for_each parse_line st lines t = (Return st', t').
Proof.
  induction lines as [|line lines IH]; intros st p t Hp; cbn [for_each].
  - now exists st, t.
  - destruct (parse_line_bound st p line t Hp) as (st1 & p1 & t1 & E & Hp1).
    unfold bind. rewrite E. now apply (IH st1 p1).
Qed.

Lemma parse_localectl_eq (h : host) (t : trace) :
  _parse_localectl h t
  = match for_each parse_line ([], None)
            (splitlines (cmd_run h t "localectl"))
            (t ++ [CmdRun "localectl"])%list with
    | (Return st, t') => (Return (fst st), t')
    | (Raise e, t') => (Raise e, t')
    end.
Proof. reflexivity. Qed.

(** The parser returns whenever the first line of the output, if there is
    one, has a colon. *)
Lemma parse_localectl_returns (h : host) (t : trace) :
  match splitlines (cmd_run h t "localectl") with
  | [] => True
  | line :: _ => has_char ":" line = true
  end ->
  exists params t', _parse_localectl h t = (Return params, t').
Proof.
  rewrite parse_localectl_eq.
  destruct (splitlines (cmd_run h t "localectl")) as [|line lines];
    cbn [for_each].
  - intros _. eexists _, _. reflexivity.
  - intros H. unfold bind.
    destruct (parse_line_colon ([], None) line
                (t ++ [CmdRun "localectl"])%list H)
      as (st1 & p1 & t1 & E & Hp1).
    rewrite E.
    destruct (for_each_parse_bound lines st1 p1 t1 Hp1) as (st2 & t2 & E2).
    rewrite E2. eauto.
Qed.

(** C3, at the input where it fails.  When the first line that localectl
    prints has no colon, [_parse_localectl] does not ignore it: the loop
    reads [cur_param] before any line has bound it, and the function raises
    UnboundLocalError after the one call of localectl. *)
Theorem parse_localectl_first_line_without_colon
  (h : host) (t : trace) (line : string) (lines : list string) :
  splitlines (cmd_run h t "localectl") = line :: lines ->
  has_char ":" line = false ->
  _parse_localectl h t
  = (Raise (UnboundLocalError "cur_param"), (t ++ [CmdRun "localectl"])%list).
Proof.
  intros Hl Hc. rewrite parse_localectl_eq, Hl.
  cbn [for_each]. unfold bind.
  now rewrite (parse_line_unbound ([], None) line _ eq_refl Hc).
Qed.

Lemma parse_localectl_first_line_without_colon_witness :
  _parse_localectl
    (sample_host arch "Failed to connect to bus" 1 [] (inr []) []) []
  = (Raise (UnboundLocalError "cur_param"), [CmdRun "localectl"]).
Proof.
  apply (parse_localectl_first_line_without_colon
           (sample_host arch "Failed to connect to bus" 1 [] (inr []) []) []
           "Failed to connect to bus" []); reflexivity.
Defined.

(** An entry of the block that is no parameter is logged and skipped. *)
Example parse_localectl_odd_parameter :
  _parse_localectl
    (sample_host arch "System Locale: n/a" 0 [] (inr []) []) []
  = (Return [], [CmdRun "localectl"; LogError (odd_parameter_msg "n/a")]).
Proof. reflexivity. Qed.

Example parse_localectl_sample :
  _parse_localectl (sample_host arch localectl_output 0 [] (inr []) []) []
  = (Return [("LANG", "a"); ("LC_TIME", "b")], [CmdRun "localectl"]).
Proof. reflexivity. Qed.

(** ** systemd: setting LANG *)

Lemma dict_get_set_same (d : dict) (k v : string) :
  dict_get (dict_set d k v) k = Some v.
Proof.
  induction d as [|[k' v'] d IH]; simpl.
  - now rewrite String.eqb_refl.
  - destruct (String.eqb k' k) eqn:E; simpl.
    + now rewrite String.eqb_refl.
    + now rewrite E.
Qed.

Lemma dict_get_set_other (d : dict) (k v k0 : string) :
  k0 <> k -> dict_get (dict_set d k v) k0 = dict_get d k0.
Proof.
  intros Hne. induction d as [|[k' v'] d IH]; simpl.
  - destruct (String.eqb k k0) eqn:E; [|reflexivity].
    apply String.eqb_eq in E. congruence.
  - destruct (String.eqb k' k) eqn:E; simpl.
    + apply String.eqb_eq in E; subst k'.
      destruct (String.eqb k k0) eqn:E0; [|reflexivity].
      apply String.eqb_eq in E0. congruence.
    + now rewrite IH.
Qed.

(** Setting a key leaves the other pairs, and their order, as they were. *)
Lemma without_key_set (d : dict) (k v : string) :
  without_key k (dict_set d k v) = without_key k d.
Proof.
  unfold without_key. induction d as [|[k' v'] d IH]; simpl.
  - now rewrite String.eqb_refl.
  - destruct (String.eqb k' k) eqn:E; simpl.
    + now rewrite String.eqb_refl.
    + now rewrite E, IH.
Qed.

(** C1.  When parsing the output of localectl gives a parameter map,
    [_localectl_set] makes one more call: the exit code of localectl
    set-locale followed by the pairs of the map in which LANG is the
    requested locale.  Every other key has the value it was parsed with, the
    other pairs keep their order, and the result is true exactly when the
    exit code is 0. *)
Theorem localectl_set_keeps_other_params
  (h : host) (locale : string) (t t' : trace) (params : dict) :
  _parse_localectl h t = (Return params, t') ->
  let passed := dict_set params "LANG" locale in
  let cmd := "localectl set-locale " ++ join " " (map format_param passed) in
  let rc := cmd_retcode h t' cmd in
  _localectl_set h locale t = (Return (Z.eqb rc 0), (t' ++ [CmdRetcode cmd])%list)
  /\ dict_get passed "LANG" = Some locale
  /\ (forall k, k <> "LANG" -> dict_get passed k = dict_get params k)
  /\ without_key "LANG" passed = without_key "LANG" params
  /\ (Z.eqb rc 0 = true <-> rc = 0%Z).
Proof.
  intros Hp passed cmd rc. repeat split.
  - unfold _localectl_set, bind. rewrite Hp. reflexivity.
  - apply dict_get_set_same.
  - intros k Hk. now apply dict_get_set_other.
  - apply without_key_set.
  - apply Z.eqb_eq.
  - apply Z.eqb_eq.
Qed.

Lemma localectl_set_keeps_other_params_witness :
  _localectl_set (sample_host arch localectl_output 0 [] (inr []) []) "c" []
  = (Return true,
     [CmdRun "localectl";
      CmdRetcode ("localectl set-locale LANG=" ++ dq ++ "c" ++ dq
                  ++ " LC_TIME=" ++ dq ++ "b" ++ dq)]).
Proof.
  exact (proj1 (localectl_set_keeps_other_params
                  (sample_host arch localectl_output 0 [] (inr []) []) "c"
                  [] [CmdRun "localectl"] [("LANG", "a"); ("LC_TIME", "b")]
                  eq_refl)).
Defined.

(** ** Reading the locale *)

Lemma has_char_app (c : ascii) (a b : string) :
  has_char c (a ++ b) = has_char c a || has_char c b.
Proof.
  induction a as [|x a IH]; simpl; [reflexivity|].
  now rewrite IH, orb_assoc.
Qed.

Lemma lang_value_no_equals (out : string) :
  has_char "=" out = false -> lang_value out = "".
Proof.
  intros H. unfold lang_value. now rewrite (split_no_sep _ _ H).
Qed.

(** With one equals sign, the value is what follows it. *)
Lemma lang_value_one_equals (a b : string) :
  has_char "=" a = false -> has_char "=" b = false ->
  lang_value (a ++ "=" ++ b) = remove_char dquote b.
Proof.
  intros Ha Hb. unfold lang_value.
  change (a ++ "=" ++ b) with (a ++ String "=" b).
  now rewrite split_app_sep, (split_no_sep _ _ Ha), (split_no_sep _ _ Hb).
Qed.

(** With more than one, the value stops at the second. *)
Lemma lang_value_two_equals (a b c : string) :
  has_char "=" a = false -> has_char "=" b = false ->
  lang_value (a ++ "=" ++ b ++ "=" ++ c) = remove_char dquote b.
Proof.
  intros Ha Hb. unfold lang_value.
  change (a ++ "=" ++ b ++ "=" ++ c) with (a ++ String "=" (b ++ String "=" c)).
  now rewrite !split_app_sep, (split_no_sep _ _ Ha), (split_no_sep _ _ Hb).
Qed.

(** What [get_locale] does off Arch and Gentoo.  On a host whose family is
    RedHat or Debian, and likewise on a family that is none of the four known
    ones (where the command is empty), it runs the command of its family
    once and returns [lang_value] of the output: the empty string when the
    output has no equals sign, and otherwise the text between the first
    equals sign and the second one, or the end of the output when there is
    no second one, without its double quotes.  It does not raise. *)
Lemma get_locale_reads_second_field (h : host) (t : trace) (fam : string) :
  os_family (host_grains h) = Some fam ->
  contains "Arch" fam = false ->
  contains "RedHat" fam = true \/ contains "Debian" fam = true
  \/ contains "Gentoo" fam = false ->
  let cmd := if contains "RedHat" fam then grep_redhat
             else if contains "Debian" fam then grep_debian
             else "" in
  let out := cmd_run h t cmd in
  get_locale h t = (Return (lang_value out), (t ++ [CmdRun cmd])%list)
  /\ (has_char "=" out = false -> lang_value out = "")
  /\ (forall a b, has_char "=" a = false -> has_char "=" b = false ->
       out = a ++ "=" ++ b -> lang_value out = remove_char dquote b)
  /\ (forall a b c, has_char "=" a = false -> has_char "=" b = false ->
       out = a ++ "=" ++ b ++ "=" ++ c ->
       lang_value out = remove_char dquote b).
Proof.
  intros Hf Ha Hfam cmd out. repeat split.
  - unfold get_locale, grain_os_family, bind. rewrite Hf. unfold ret at 1.
    rewrite Ha. subst out cmd.
    destruct (contains "RedHat" fam); [reflexivity|].
    destruct (contains "Debian" fam); [reflexivity|].
    destruct Hfam as [H|[H|H]]; try discriminate. now rewrite H.
  - apply lang_value_no_equals.
  - intros a b Hna Hnb ->. now apply lang_value_one_equals.
  - intros a b c Hna Hnb ->. now apply lang_value_two_equals.
Qed.

Example get_locale_debian_sample :
  get_locale (sample_host debian ("LANG=" ++ dq ++ "en_US.UTF-8" ++ dq) 0
                          [] (inr []) []) []
  = (Return "en_US.UTF-8", [CmdRun grep_debian]).
Proof. reflexivity. Qed.

Lemma text_after_first_app (sep : ascii) (a b : string) :
  has_char sep a = false ->
  text_after_first sep (a ++ String sep b) = Some b.
Proof.
  intros Ha. unfold text_after_first.
  induction a as [|x a IH]; simpl.
  - now rewrite Ascii.eqb_refl.
  - simpl in Ha. apply orb_false_iff in Ha as [Hx Ha].
    rewrite Hx. specialize (IH Ha).
    destruct (split1 sep (a ++ String sep b)) as [|f [|g gs]];
      simpl in *; congruence.
Qed.

(** C5, at the inputs where it fails.  On the RedHat and Debian families,
    when the output of grep has a second equals sign, the text after the
    first one runs to the end of the output, but [get_locale] returns only
    what stands before the second equals sign, without its double quotes.
    (With no equals sign it returns the empty string, and with one the text
    after it: see [get_locale_reads_second_field].) *)
Theorem get_locale_stops_at_second_equals
  (h : host) (t : trace) (fam a b c : string) :
  os_family (host_grains h) = Some fam ->
  contains "Arch" fam = false ->
  contains "RedHat" fam = true \/ contains "Debian" fam = true ->
  let cmd := if contains "RedHat" fam then grep_redhat else grep_debian in
  has_char "=" a = false -> has_char "=" b = false ->
  cmd_run h t cmd = a ++ "=" ++ b ++ "=" ++ c ->
  get_locale h t = (Return (remove_char dquote b), (t ++ [CmdRun cmd])%list)
  /\ text_after_first "=" (cmd_run h t cmd) = Some (b ++ "=" ++ c).
Proof.
  intros Hf Ha Hfam cmd Hna Hnb Hout.
  assert (Hor : contains "RedHat" fam = true \/ contains "Debian" fam = true
                \/ contains "Gentoo" fam = false) by tauto.
  destruct (get_locale_reads_second_field h t fam Hf Ha Hor)
    as (E & _ & _ & H2).
  assert (Hcmd : (if contains "RedHat" fam then grep_redhat
                  else if contains "Debian" fam then grep_debian else "")
                 = cmd).
  { subst cmd. destruct (contains "RedHat" fam); [reflexivity|].
    destruct Hfam as [H|H]; [discriminate|now rewrite H]. }
  rewrite Hcmd in E, H2. split.
  - rewrite E. now rewrite (H2 a b c Hna Hnb Hout).
  - rewrite Hout. now apply (text_after_first_app "=" a).
Qed.

Lemma get_locale_stops_at_second_equals_witness :
  let h := sample_host redhat "LANG=a=b" 0 [] (inr []) [] in
  get_locale h [] = (Return "a", [CmdRun grep_redhat])
  /\ text_after_first "=" (cmd_run h [] grep_redhat) = Some "a=b".
Proof.
  exact (get_locale_stops_at_second_equals
           (sample_host redhat "LANG=a=b" 0 [] (inr []) []) [] "RedHat"
           "LANG" "a" "b" eq_refl eq_refl (or_introl eq_refl)
           eq_refl eq_refl eq_refl).
Defined.

(** The same value read on Arch, from the output of localectl, is whole:
    the parameter pattern takes everything after the first equals sign. *)
Example get_locale_arch_whole_value :
  get_locale (sample_host arch "System Locale: LANG=a=b" 0 [] (inr []) []) []
  = (Return "a=b", [CmdRun "localectl"]).
Proof. reflexivity. Qed.

(** On a family that is not known and a shell that prints nothing for the
    empty command, the result is the empty string. *)
Example get_locale_unknown_family :
  get_locale (sample_host (mk_grains (Some "FreeBSD") (Some "FreeBSD")) "" 0
                          [] (inr []) []) []
  = (Return "", [CmdRun ""]).
Proof. reflexivity. Qed.

(** ** The file edit of [set_locale] *)

(** On RedHat, [set_locale] hands the file to [file.replace] with the
    pattern and the line that [file_replace_lang] is applied with. *)
Example set_locale_redhat_edit :
  set_locale (sample_host redhat "" 0 [] (inr []) []) "en_US.UTF-8" []
  = (Return true,
     [FileExists "/etc/sysconfig/i18n";
      FileReplace "/etc/sysconfig/i18n" lang_pattern
                  (lang_line "en_US.UTF-8") true]).
Proof. reflexivity. Qed.

Section LangEdit.

Variable repl : string.
Hypothesis repl_matches : matches_lang repl = true.

(** A line that the edit leaves as it is. *)
Let fixed (l : string) : Prop := replace_line repl l = l.

Lemma replace_line_fixed (l : string) : fixed (replace_line repl l).
Proof.
  unfold fixed, replace_line.
  destruct (matches_lang l) eqn:E; [now rewrite repl_matches|now rewrite E].
Qed.

Lemma unmatched_fixed (l : string) : matches_lang l = false -> fixed l.
Proof. intros H. unfold fixed, replace_line. now rewrite H. Qed.

Lemma append_line_cons (l : string) (ls : list string) :
  append_line (l :: ls) repl = [repl; ""] \/
  append_line (l :: ls) repl = l :: append_line ls repl.
Proof. destruct l; destruct ls; simpl; auto. Qed.

Lemma append_line_nonempty (ls : list string) : append_line ls repl <> [].
Proof.
  destruct ls as [|l ls]; [discriminate|].
  destruct (append_line_cons l ls) as [E|E]; rewrite E; discriminate.
Qed.

Lemma append_line_found (ls : list string) :
  existsb matches_lang (append_line ls repl) = true.
Proof.
  induction ls as [|l ls IH]; [simpl; now rewrite repl_matches|].
  destruct (append_line_cons l ls) as [E|E]; rewrite E; simpl.
  - now rewrite repl_matches.
  - now rewrite IH, orb_true_r.
Qed.

Lemma append_line_fixed (ls : list string) :
  existsb matches_lang ls = false -> Forall fixed (append_line ls repl).
Proof.
  assert (Hend : Forall fixed [repl; ""]).
  { constructor; [|constructor; [reflexivity|constructor]].
    unfold fixed, replace_line. now rewrite repl_matches. }
  induction ls as [|l ls IH]; intros H; [exact Hend|].
  simpl in H. apply orb_false_iff in H as [Hl Hls].
  destruct (append_line_cons l ls) as [E|E]; rewrite E; [exact Hend|].
  constructor; [now apply unmatched_fixed|now apply IH].
Qed.

Lemma append_line_no_char (c : ascii) (ls : list string) :
  has_char c repl = false ->
  Forall (fun l => has_char c l = false) ls ->
  Forall (fun l => has_char c l = false) (append_line ls repl).
Proof.
  intros Hr HF. induction HF as [|l ls Hl HF IH].
  - repeat constructor; assumption.
  - destruct (append_line_cons l ls) as [E|E]; rewrite E.
    + repeat constructor; assumption.
    + constructor; assumption.
Qed.

Lemma replaced_found (ls : list string) :
  existsb matches_lang ls = true ->
  existsb matches_lang (map (replace_line repl) ls) = true.
Proof.
  induction ls as [|l ls IH]; simpl; [discriminate|].
  unfold replace_line at 1.
  destruct (matches_lang l) eqn:E; simpl; [now rewrite repl_matches|].
  now rewrite E.
Qed.

(** What the edit makes of the lines: a list with a line that matches, in
    which every line is left as it is by a second edit. *)
Lemma edit_lines_found (ls : list string) :
  existsb matches_lang (edit_lines repl ls) = true.
Proof.
  unfold edit_lines. destruct (existsb matches_lang ls) eqn:E.
  - now apply replaced_found.
  - apply append_line_found.
Qed.

Lemma edit_lines_all_fixed (ls : list string) :
  Forall fixed (edit_lines repl ls).
Proof.
  unfold edit_lines. destruct (existsb matches_lang ls) eqn:E.
  - apply Forall_forall. intros l Hin. apply in_map_iff in Hin as (l0 & <- & _).
    apply replace_line_fixed.
  - now apply append_line_fixed.
Qed.

Lemma edit_lines_nonempty (ls : list string) :
  ls <> [] -> edit_lines repl ls <> [].
Proof.
  unfold edit_lines. destruct (existsb matches_lang ls).
  - destruct ls; [congruence|discriminate].
  - intros _. apply append_line_nonempty.
Qed.

Lemma edit_lines_no_char (c : ascii) (ls : list string) :
  has_char c repl = false ->
  Forall (fun l => has_char c l = false) ls ->
  Forall (fun l => has_char c l = false) (edit_lines repl ls).
Proof.
  intros Hr HF. unfold edit_lines. destruct (existsb matches_lang ls).
  - apply Forall_forall. intros l Hin. apply in_map_iff in Hin as (l0 & <- & Hin).
    unfold replace_line. destruct (matches_lang l0); [assumption|].
    now apply (proj1 (Forall_forall _ _) HF).
  - now apply append_line_no_char.
Qed.

Lemma edit_lines_again (ls : list string) :
  existsb matches_lang ls = true -> Forall fixed ls ->
  edit_lines repl ls = ls.
Proof.
  intros Hf HF. unfold edit_lines. rewrite Hf.
  induction HF as [|l ls Hl HF IH]; [reflexivity|].
  simpl. rewrite Hl. f_equal.
  clear IH Hf. induction HF as [|x xs Hx HF IH]; [reflexivity|].
  simpl. now rewrite Hx, IH.
Qed.

Lemma file_replace_lang_again (content : string) :
  has_char LF repl = false ->
  file_replace_lang repl (file_replace_lang repl content)
  = file_replace_lang repl content.
Proof.
  intros Hr. unfold file_replace_lang, nl.
  rewrite split_join.
  - rewrite edit_lines_again;
      [reflexivity|apply edit_lines_found|apply edit_lines_all_fixed].
  - apply edit_lines_nonempty, split_nonempty.
  - apply edit_lines_no_char; [assumption|apply split_fields_no_sep].
Qed.

End LangEdit.

Lemma lang_line_matches (locale : string) : matches_lang (lang_line locale) = true.
Proof. reflexivity. Qed.

Lemma lang_line_no_line_feed (locale : string) :
  has_char LF locale = false -> has_char LF (lang_line locale) = false.
Proof.
  intros H. unfold lang_line, dq. simpl.
  now rewrite has_char_app, H.
Qed.

(** C8, for a locale without a line feed.  The edit that [set_locale] asks
    for on RedHat and Debian (every line that starts with LANG= becomes the
    line LANG= with the locale in double quotes, and that line is appended
    when no line starts so) gives, applied twice with one locale, the same
    bytes as applied once, whatever the file held. *)
Theorem file_replace_lang_idempotent (locale content : string) :
  has_char LF locale = false ->
  file_replace_lang (lang_line locale)
    (file_replace_lang (lang_line locale) content)
  = file_replace_lang (lang_line locale) content.
Proof.
  intros H. apply file_replace_lang_again.
  - apply lang_line_matches.
  - now apply lang_line_no_line_feed.
Qed.

Lemma file_replace_lang_idempotent_witness :
  file_replace_lang (lang_line "en_US.UTF-8")
    (file_replace_lang (lang_line "en_US.UTF-8") ("LC_ALL=C" ++ nl ++ "LANG=C"))
  = file_replace_lang (lang_line "en_US.UTF-8") ("LC_ALL=C" ++ nl ++ "LANG=C").
Proof.
  exact (file_replace_lang_idempotent "en_US.UTF-8"
           ("LC_ALL=C" ++ nl ++ "LANG=C") eq_refl).
Defined.

(** C8, as it is stated for every locale, fails for a locale with a line
    feed in it: the second line of the replacement does not start with
    LANG=, so the second edit replaces the first line only and the rest of
    the old replacement stays behind. *)
Lemma file_replace_lang_not_idempotent :
  let locale := "a" ++ nl ++ "b" in
  file_replace_lang (lang_line locale) ""
  = "LANG=" ++ dq ++ "a" ++ nl ++ "b" ++ dq ++ nl
  /\ file_replace_lang (lang_line locale)
       (file_replace_lang (lang_line locale) "")
     = "LANG=" ++ dq ++ "a" ++ nl ++ "b" ++ dq ++ nl ++ "b" ++ dq ++ nl
  /\ file_replace_lang (lang_line locale)
       (file_replace_lang (lang_line locale) "")
     <> file_replace_lang (lang_line locale) "".
Proof.
  repeat split. discriminate.
Qed.

(** ** Availability *)

Lemma avail_eq (h : host) (locale n : string) (t : trace) :
  normalize_locale h locale = Return n ->
  avail h locale t
  = (next_match (normalize_locale h) n (split LF (cmd_run h t "locale -a")),
     (t ++ [CmdRun "locale -a"])%list).
Proof. intros H. unfold avail. now rewrite H. Qed.

Section NextMatch.

Variable normalize : string -> outcome string.
Variable n : string.

Lemma next_match_skips (pre rest : list string) :
  forallb (normalizes_off normalize n) pre = true ->
  next_match normalize n (pre ++ rest) = next_match normalize n rest.
Proof.
  induction pre as [|y pre IH]; simpl; [reflexivity|].
  unfold normalizes_off at 1. intros H. apply andb_true_iff in H as [Hy Hpre].
  destruct (normalize (strip y)) as [m|e]; [|discriminate].
  apply negb_true_iff in Hy. rewrite Hy. now apply IH.
Qed.

Lemma next_match_raises (pre post : list string) (x : string) (e : exn) :
  forallb (normalizes_off normalize n) pre = true ->
  normalize (strip x) = Raise e ->
  next_match normalize n (pre ++ x :: post) = Raise e.
Proof.
  intros Hpre Hx. rewrite next_match_skips by assumption.
  simpl. now rewrite Hx.
Qed.

Lemma next_match_finds (pre post : list string) (x : string) :
  forallb (normalizes_off normalize n) pre = true ->
  normalizes_to normalize n x = true ->
  next_match normalize n (pre ++ x :: post) = Return true.
Proof.
  intros Hpre Hx. rewrite next_match_skips by assumption.
  simpl. unfold normalizes_to in Hx.
  destruct (normalize (strip x)) as [m|e]; [|discriminate]. now rewrite Hx.
Qed.

Lemma next_match_found (l : list string) :
  next_match normalize n l = Return true ->
  exists pre x post,
    l = (pre ++ x :: post)%list
    /\ forallb (normalizes_off normalize n) pre = true
    /\ normalizes_to normalize n x = true.
Proof.
  induction l as [|y l IH]; simpl; [discriminate|].
  destruct (normalize (strip y)) as [m|e] eqn:Ey; [|discriminate].
  destruct (String.eqb m n) eqn:Em.
  - intros _. exists [], y, l. repeat split.
    unfold normalizes_to. now rewrite Ey.
  - intros H. destruct (IH H) as (pre & x & post & -> & Hpre & Hx).
    exists (y :: pre), x, post. repeat split; [|assumption].
    simpl. unfold normalizes_off at 1. now rewrite Ey, Em.
Qed.

Lemma next_match_total (l : list string) :
  forallb (normalizes normalize) l = true ->
  next_match normalize n l = Return (existsb (normalizes_to normalize n) l).
Proof.
  induction l as [|y l IH]; simpl; [reflexivity|].
  unfold normalizes at 1, normalizes_to at 1.
  destruct (normalize (strip y)) as [m|e]; [|discriminate].
  simpl. intros H. destruct (String.eqb m n); [reflexivity|now apply IH].
Qed.

End NextMatch.

(** How [avail] scans the list.  When normalising the request raises
    IndexError, [avail] logs and returns false.  When it gives [n], [avail]
    returns true exactly when some entry of the list normalises, trimmed, to
    [n] and every entry before it normalises to something else; when every
    entry normalises, the result is whether one of them normalises to [n].
    Two requests that normalise alike have the same outcome on one list. *)
Lemma avail_first_match (h : host) (locale : string) (t : trace) :
  let entries := split LF (cmd_run h t "locale -a") in
  let norm := normalize_locale h in
  (norm locale = Raise IndexError ->
   avail h locale t
   = (Return false, (t ++ [LogError (unable_to_validate locale)])%list))
  /\ (forall n, norm locale = Return n ->
       (fst (avail h locale t) = Return true <->
        exists pre x post,
          entries = (pre ++ x :: post)%list
          /\ forallb (normalizes_off norm n) pre = true
          /\ normalizes_to norm n x = true)
       /\ (forallb (normalizes norm) entries = true ->
           avail h locale t
           = (Return (existsb (normalizes_to norm n) entries),
              (t ++ [CmdRun "locale -a"])%list)))
  /\ (forall locale', norm locale' = norm locale ->
       fst (avail h locale' t) = fst (avail h locale t)).
Proof.
  intros entries norm. split; [|split].
  - intros H. unfold avail. fold norm. now rewrite H.
  - intros n Hn. rewrite (avail_eq _ _ _ _ Hn). simpl. fold entries norm.
    split; [split|].
    + apply next_match_found.
    + intros (pre & x & post & -> & Hpre & Hx). now apply next_match_finds.
    + intros H. now rewrite next_match_total.
  - intros locale' H. unfold avail. fold norm. rewrite H.
    destruct (norm locale) as [n|e]; [reflexivity|].
    destruct e; reflexivity.
Qed.





(** C10.  The guard of [avail] covers the request only.  When the request
    normalises to [n], the entries before [x] normalise to something else
    and normalising [x], trimmed, raises [e], then [avail] raises [e] after
    the call that lists the locales: nothing is logged and no false is
    returned, also when [e] is the IndexError that the guard is for. *)
Theorem avail_entry_failure_propagates
  (h : host) (locale n : string) (t : trace)
  (pre post : list string) (x : string) (e : exn) :
  normalize_locale h locale = Return n ->
  split LF (cmd_run h t "locale -a") = (pre ++ x :: post)%list ->
  forallb (normalizes_off (normalize_locale h) n) pre = true ->
  normalize_locale h (strip x) = Raise e ->
  avail h locale t = (Raise e, (t ++ [CmdRun "locale -a"])%list).
Proof.
  intros Hn Hl Hpre Hx. rewrite (avail_eq _ _ _ _ Hn), Hl.
  now rewrite (next_match_raises _ _ _ _ _ _ Hpre Hx).
Qed.

Lemma avail_entry_failure_propagates_witness :
  avail (sample_host debian ("C" ++ nl ++ "en_US.utf8" ++ nl) 0
                     [] (inr []) []) "de_DE.UTF-8" []
  = (Raise IndexError, [CmdRun "locale -a"]).
Proof.
  exact (avail_entry_failure_propagates
           (sample_host debian ("C" ++ nl ++ "en_US.utf8" ++ nl) 0
                        [] (inr []) [])
           "de_DE.UTF-8" "de_de.utf8" [] ["C"; "en_US.utf8"] [] "" IndexError
           eq_refl eq_refl eq_refl eq_refl).
Defined.

(** ** Generating a locale *)

Lemma gen_locale_after_validate
  (h : host) (locale : string) (verbose : bool) (t t1 : trace)
  (v : validated) :
  gen_locale_validate h locale t = (Return v, t1) ->
  gen_locale h locale verbose t
  = if v_valid v
    then gen_locale_compile h (v_locale v) (v_info v) verbose t1
    else (Return (GenBool false),
          (t1 ++ [LogError (not_found_in (v_locale v) (v_search v))])%list).
Proof.
  intros H. unfold gen_locale, bind. rewrite H.
  destruct (v_valid v); reflexivity.
Qed.

Lemma gen_locale_register_eq
  (h : host) (locale : string) (i : locale_info) (t : trace) :
  gen_locale_register h locale i t
  = (Return tt,
     (t ++ register_events h (path_exists h t "/etc/locale.gen") locale i)%list).
Proof.
  unfold gen_locale_register, register_events, bind, call, ret.
  destruct (path_exists h t "/etc/locale.gen"); simpl.
  - now rewrite <- app_assoc.
  - destruct (on_ubuntu h); simpl; now rewrite <- ?app_assoc.
Qed.

Lemma run_compiler_eq (h : host) (cmd : list string) (verbose : bool)
  (t : trace) :
  let res := cmd_run_all h t cmd in
  run_compiler h cmd verbose t
  = (Return (if verbose then GenResult res
             else GenBool (Z.eqb (retcode res) 0)),
     (t ++ compiler_events cmd res)%list).
Proof.
  unfold run_compiler, compiler_events, bind, call, ret, log_error.
  simpl. destruct (Z.eqb (retcode (cmd_run_all h t cmd)) 0); simpl;
    destruct verbose; now rewrite <- ?app_assoc.
Qed.

(** The steps after the validation, call by call. *)
Lemma gen_locale_compile_eq
  (h : host) (locale : string) (i : locale_info) (verbose : bool)
  (t : trace) :
  let t1 :=
    (t ++ register_events h (path_exists h t "/etc/locale.gen") locale i)%list
  in
  let t2 := (t1 ++ [Which "locale-gen"])%list in
  let t3 := (t2 ++ [Which "localedef"])%list in
  gen_locale_compile h locale i verbose t
  = match which h t1 "locale-gen" with
    | Some _ => run_compiler h (locale_gen_cmd h locale) verbose t2
    | None =>
        match which h t2 "localedef" with
        | Some _ => run_compiler h (localedef_cmd locale i verbose) verbose t3
        | None => (Raise (CommandExecutionError no_compiler), t3)
        end
    end.
Proof.
  intros t1 t2 t3. unfold gen_locale_compile, bind.
  rewrite gen_locale_register_eq. fold t1.
  unfold gen_locale_command, bind, call, ret, raise. fold t2 t3.
  destruct (which h t1 "locale-gen"); [reflexivity|].
  destruct (which h t2 "localedef"); reflexivity.
Qed.

Lemma gen_locale_validate_file_eq (h : host) (locale : string) (t : trace) :
  on_debian h || on_gentoo h = true ->
  let info := split_locale h locale in
  let info' := set_charmap info (codeset info) in
  let locale' := join_locale h info' in
  let first := FileSearch supported_file (line_pattern locale) in
  let second := FileSearch supported_file (line_pattern locale') in
  let found := file_search h t supported_file (line_pattern locale) in
  let found' :=
    file_search h (t ++ [first])%list supported_file (line_pattern locale') in
  gen_locale_validate h locale t
  = if negb found && String.eqb (charmap info) ""
    then (Return (mk_validated found' locale' info' supported_file),
          (t ++ [first; second])%list)
    else (Return (mk_validated found locale info supported_file),
          (t ++ [first])%list).
Proof.
  intros Hfb info info' locale' first second found found'.
  unfold gen_locale_validate. rewrite Hfb.
  unfold bind, call, ret. fold info found.
  destruct (negb found && String.eqb (charmap info) ""); [|reflexivity].
  subst found' first second. now rewrite <- app_assoc.
Qed.

Lemma gen_locale_validate_dir_eq (h : host) (locale : string) (t : trace) :
  on_debian h || on_gentoo h = false ->
  let info := split_locale h locale in
  gen_locale_validate h locale t
  = match listdir h t (search_dir h) with
    | inl ex =>
        (Raise (CommandExecutionError (not_available locale)),
         (t ++ [ListDir (search_dir h); LogError ex])%list)
    | inr names =>
        (Return (mk_validated
                   (existsb (String.eqb (lang_territory info)) names)
                   locale info (search_dir h)),
         (t ++ [ListDir (search_dir h)])%list)
    end.
Proof.
  intros Hdb info. unfold gen_locale_validate. rewrite Hdb.
  unfold log_error, bind, call, ret, raise.
  destruct (listdir h t (search_dir h)); [|reflexivity].
  now rewrite <- app_assoc.
Qed.

Lemma existsb_eqb_In (a : string) (l : list string) :
  existsb (String.eqb a) l = true <-> In a l.
Proof.
  rewrite existsb_exists. split.
  - intros (x & Hin & E). apply String.eqb_eq in E. now subst x.
  - intros Hin. exists a. split; [assumption|apply String.eqb_refl].
Qed.

Lemma existsb_eqb_not_In (a : string) (l : list string) :
  ~ In a l -> existsb (String.eqb a) l = false.
Proof.
  intros H. destruct (existsb (String.eqb a) l) eqn:E; [|reflexivity].
  now apply existsb_eqb_In in E.
Qed.



(** C2.  [gen_locale] returns false, after logging, when the validation
    fails: on Debian and Gentoo when the SUPPORTED file does not have the
    locale and either a charmap was given or the search with the codeset as
    charmap fails too; elsewhere when the directory has no entry named by
    the language and the territory.  When the directory cannot be listed,
    it logs the error and raises CommandExecutionError instead. *)
Theorem gen_locale_unsupported_or_fatal
  (h : host) (locale : string) (verbose : bool) (t : trace) :
  let info := split_locale h locale in
  let locale' := join_locale h (set_charmap info (codeset info)) in
  let first := FileSearch supported_file (line_pattern locale) in
  let second := FileSearch supported_file (line_pattern locale') in
  (on_debian h || on_gentoo h = true ->
   file_search h t supported_file (line_pattern locale) = false ->
   (charmap info <> "" ->
    gen_locale h locale verbose t
    = (Return (GenBool false),
       (t ++ [first; LogError (not_found_in locale supported_file)])%list))
   /\ (charmap info = "" ->
       file_search h (t ++ [first])%list supported_file (line_pattern locale')
       = false ->
       gen_locale h locale verbose t
       = (Return (GenBool false),
          (t ++ [first; second;
                 LogError (not_found_in locale' supported_file)])%list)))
  /\ (on_debian h || on_gentoo h = false ->
      (forall names,
          listdir h t (search_dir h) = inr names ->
          ~ In (language info ++ "_" ++ territory info) names ->
          gen_locale h locale verbose t
          = (Return (GenBool false),
             (t ++ [ListDir (search_dir h);
                    LogError (not_found_in locale (search_dir h))])%list))
      /\ (forall ex,
             listdir h t (search_dir h) = inl ex ->
             gen_locale h locale verbose t
             = (Raise (CommandExecutionError (not_available locale)),
                (t ++ [ListDir (search_dir h); LogError ex])%list))).
Proof.
  intros info locale' first second. split.
  - intros Hfb Hs.
    pose proof (gen_locale_validate_file_eq h locale t Hfb) as E.
    cbv zeta in E. fold info locale' first second in E. rewrite Hs in E.
    split.
    + intros Hc.
      destruct (String.eqb_spec (charmap info) ""); [contradiction|].
      simpl in E. rewrite (gen_locale_after_validate _ _ _ _ _ _ E). simpl.
      now rewrite <- app_assoc.
    + intros Hc Hs'. rewrite Hc, Hs' in E. simpl in E.
      rewrite (gen_locale_after_validate _ _ _ _ _ _ E). simpl.
      now rewrite <- app_assoc.
  - intros Hdb.
    pose proof (gen_locale_validate_dir_eq h locale t Hdb) as E.
    cbv zeta in E. fold info in E. split.
    + intros names Hl Hn. rewrite Hl in E.
      unfold lang_territory in E. rewrite (existsb_eqb_not_In _ _ Hn) in E.
      rewrite (gen_locale_after_validate _ _ _ _ _ _ E). simpl.
      now rewrite <- app_assoc.
    + intros ex Hl. rewrite Hl in E.
      unfold gen_locale, bind. now rewrite E.
Qed.

Lemma gen_locale_unsupported_or_fatal_witness :
  gen_locale (sample_host gentoo "" 0 [] (inr []) ["locale-gen"])
             "xx_YY.UTF-8" false []
  = (Return (GenBool false),
     [FileSearch supported_file "^xx_YY.UTF-8$";
      FileSearch supported_file "^xx_YY.UTF-8 UTF-8$";
      LogError (not_found_in "xx_YY.UTF-8 UTF-8" supported_file)])
  /\ gen_locale (sample_host redhat "" 0 [] (inr ["en_US"; "de_DE"])
                            ["localedef"])
                "xx_YY.UTF-8" false []
     = (Return (GenBool false),
        [ListDir "/usr/share/i18n/locales";
         LogError (not_found_in "xx_YY.UTF-8" "/usr/share/i18n/locales")])
  /\ gen_locale (sample_host suse "" 0 [] (inl "No such file or directory")
                            ["localedef"])
                "en_US.UTF-8" false []
     = (Raise (CommandExecutionError (not_available "en_US.UTF-8")),
        [ListDir "/usr/share/locale"; LogError "No such file or directory"]).
Proof.
  split; [|split].
  - exact (proj2 (proj1 (gen_locale_unsupported_or_fatal
                           (sample_host gentoo "" 0 [] (inr []) ["locale-gen"])
                           "xx_YY.UTF-8" false []) eq_refl eq_refl)
                 eq_refl eq_refl).
  - refine (proj1 (proj2 (gen_locale_unsupported_or_fatal
                            (sample_host redhat "" 0 []
                                         (inr ["en_US"; "de_DE"]) ["localedef"])
                            "xx_YY.UTF-8" false []) eq_refl)
                  ["en_US"; "de_DE"] eq_refl _).
    simpl. intros [H|[H|[]]]; discriminate.
  - exact (proj2 (proj2 (gen_locale_unsupported_or_fatal
                           (sample_host suse "" 0 []
                                        (inl "No such file or directory")
                                        ["localedef"])
                           "en_US.UTF-8" false []) eq_refl)
                 "No such file or directory" eq_refl).
Defined.

(** C7.  Once the validation has accepted the locale and the registration
    step is done, [gen_locale] looks for locale-gen and runs it when it is
    found; when it is not, it looks for localedef and runs that when it is
    found; when neither is found it raises CommandExecutionError without
    running anything.  Running the command is the one call that follows,
    along with the log of its errors when it fails, and it returns. *)
Theorem gen_locale_compiler_choice
  (h : host) (locale : string) (verbose : bool) (t t1 : trace)
  (v : validated) :
  gen_locale_validate h locale t = (Return v, t1) ->
  v_valid v = true ->
  let t2 := (t1 ++ register_events h (path_exists h t1 "/etc/locale.gen")
                     (v_locale v) (v_info v))%list in
  let t3 := (t2 ++ [Which "locale-gen"])%list in
  let t4 := (t3 ++ [Which "localedef"])%list in
  let ran (cmd : list string) (t' : trace) :=
    let res := cmd_run_all h t' cmd in
    (Return (if verbose then GenResult res
             else GenBool (Z.eqb (retcode res) 0)),
     (t' ++ CmdRunAll cmd
         :: (if Z.eqb (retcode res) 0 then [] else [LogError (stderr res)]))%list)
  in
  (forall exe, which h t2 "locale-gen" = Some exe ->
     exists args,
       locale_gen_cmd h (v_locale v) = "locale-gen" :: args
       /\ gen_locale h locale verbose t = ran ("locale-gen" :: args) t3)
  /\ (which h t2 "locale-gen" = None ->
      forall exe, which h t3 "localedef" = Some exe ->
        exists args,
          localedef_cmd (v_locale v) (v_info v) verbose = "localedef" :: args
          /\ gen_locale h locale verbose t = ran ("localedef" :: args) t4)
  /\ (which h t2 "locale-gen" = None ->
      which h t3 "localedef" = None ->
      gen_locale h locale verbose t
      = (Raise (CommandExecutionError no_compiler), t4)).
Proof.
  intros Hv Hvalid t2 t3 t4 ran.
  rewrite (gen_locale_after_validate _ _ _ _ _ _ Hv), Hvalid.
  rewrite gen_locale_compile_eq. fold t2 t3 t4.
  split; [|split].
  - intros exe ->. eexists. split; [reflexivity|]. apply run_compiler_eq.
  - intros -> exe ->. eexists. split; [reflexivity|]. apply run_compiler_eq.
  - intros -> ->. reflexivity.
Qed.

Lemma gen_locale_compiler_choice_witness :
  gen_locale (sample_host redhat "" 0 [] (inr ["en_US"]) ["locale-gen"])
             "en_US.UTF-8" false []
  = (Return (GenBool true),
     [ListDir "/usr/share/i18n/locales"; PathExists "/etc/locale.gen";
      FileReplace "/etc/locale.gen" (locale_gen_pattern "en_US.UTF-8")
                  "en_US.UTF-8" true;
      Which "locale-gen"; CmdRunAll ["locale-gen"; "en_US.UTF-8"]])
  /\ gen_locale (sample_host redhat "" 0 [] (inr ["en_US"]) ["localedef"])
                "en_US.UTF-8" false []
     = (Return (GenBool true),
        [ListDir "/usr/share/i18n/locales"; PathExists "/etc/locale.gen";
         FileReplace "/etc/locale.gen" (locale_gen_pattern "en_US.UTF-8")
                     "en_US.UTF-8" true;
         Which "locale-gen"; Which "localedef";
         CmdRunAll ["localedef"; "--force"; "-i"; "en_US"; "-f"; "UTF-8";
                    "en_US.UTF-8"; "--quiet"]])
  /\ gen_locale (sample_host redhat "" 0 [] (inr ["en_US"]) [])
                "en_US.UTF-8" false []
     = (Raise (CommandExecutionError no_compiler),
        [ListDir "/usr/share/i18n/locales"; PathExists "/etc/locale.gen";
         FileReplace "/etc/locale.gen" (locale_gen_pattern "en_US.UTF-8")
                     "en_US.UTF-8" true;
         Which "locale-gen"; Which "localedef"]).
Proof.
  split; [|split].
  - destruct (proj1 (gen_locale_compiler_choice
                       (sample_host redhat "" 0 [] (inr ["en_US"])
                                    ["locale-gen"])
                       "en_US.UTF-8" false [] _ _ eq_refl eq_refl)
                    _ eq_refl) as (args & Hargs & E).
    injection Hargs as <-. exact E.
  - destruct (proj1 (proj2 (gen_locale_compiler_choice
                              (sample_host redhat "" 0 [] (inr ["en_US"])
                                           ["localedef"])
                              "en_US.UTF-8" false [] _ _ eq_refl eq_refl))
                    eq_refl _ eq_refl) as (args & Hargs & E).
    injection Hargs as <-. exact E.
  - exact (proj2 (proj2 (gen_locale_compiler_choice
                           (sample_host redhat "" 0 [] (inr ["en_US"]) [])
                           "en_US.UTF-8" false [] _ _ eq_refl eq_refl))
                 eq_refl eq_refl).
Defined.

(** C9.  When the first search of the SUPPORTED file fails and no charmap
    was given, so that the locale is joined again with the codeset as
    charmap, and the second search finds it, the rest of [gen_locale] runs
    on the joined locale: the line written to [/etc/locale.gen] and the
    pattern that looks for it, the line written on Ubuntu to the file of
    the language, the argument of locale-gen and the last argument but one
    of localedef are the joined locale.  The parts of the locale that the
    fallback leaves alone (language, territory, codeset) are those of the
    locale of the caller. *)
Theorem gen_locale_fallback_locale
  (h : host) (locale : string) (verbose : bool) (t : trace) :
  let info := split_locale h locale in
  let info' := set_charmap info (codeset info) in
  let locale' := join_locale h info' in
  let first := FileSearch supported_file (line_pattern locale) in
  let second := FileSearch supported_file (line_pattern locale') in
  let t1 := (t ++ [first; second])%list in
  on_debian h || on_gentoo h = true ->
  file_search h t supported_file (line_pattern locale) = false ->
  charmap info = "" ->
  file_search h (t ++ [first])%list supported_file (line_pattern locale') = true ->
  let registered :=
    PathExists "/etc/locale.gen" ::
    (if path_exists h t1 "/etc/locale.gen" then
       [FileReplace "/etc/locale.gen" ("^\s*#\s*" ++ locale' ++ "\s*$")
                    locale' true]
     else if on_ubuntu h then
       [FileTouch ("/var/lib/locales/supported.d/" ++ language info);
        FileReplace ("/var/lib/locales/supported.d/" ++ language info)
                    locale' locale' true]
     else []) in
  let t2 := (t1 ++ registered)%list in
  let t3 := (t2 ++ [Which "locale-gen"])%list in
  let t4 := (t3 ++ [Which "localedef"])%list in
  let with_locale_gen :=
    ("locale-gen" :: (if on_gentoo h then ["--generate"] else [])
       ++ (if on_ubuntu h then [] else [locale']))%list in
  let with_localedef :=
    ["localedef"; "--force"; "-i"; language info ++ "_" ++ territory info;
     "-f"; codeset info; locale';
     if verbose then "--verbose" else "--quiet"] in
  gen_locale h locale verbose t
  = gen_locale_compile h locale' info' verbose t1
  /\ gen_locale h locale verbose t
     = match which h t2 "locale-gen" with
       | Some _ => run_compiler h with_locale_gen verbose t3
       | None =>
           match which h t3 "localedef" with
           | Some _ => run_compiler h with_localedef verbose t4
           | None => (Raise (CommandExecutionError no_compiler), t4)
           end
       end.
Proof.
  intros info info' locale' first second t1 Hfb Hs Hc Hs'
         registered t2 t3 t4 with_locale_gen with_localedef.
  pose proof (gen_locale_validate_file_eq h locale t Hfb) as E.
  cbv zeta in E. fold info info' locale' first second t1 in E.
  rewrite Hs, Hc, Hs' in E. simpl in E.
  rewrite (gen_locale_after_validate _ _ _ _ _ _ E). simpl.
  split; [reflexivity|].
  rewrite gen_locale_compile_eq.
  change (t1 ++ register_events h (path_exists h t1 "/etc/locale.gen")
                  locale' info')%list with t2.
  fold t3 t4.
  replace (locale_gen_cmd h locale') with with_locale_gen
    by (unfold locale_gen_cmd, with_locale_gen; now destruct (on_ubuntu h)).
  reflexivity.
Qed.

Lemma gen_locale_fallback_locale_witness :
  gen_locale (sample_host debian "" 0 ["^en_US.UTF-8 UTF-8$"] (inr [])
                          ["locale-gen"])
             "en_US.UTF-8" false []
  = (Return (GenBool true),
     [FileSearch supported_file "^en_US.UTF-8$";
      FileSearch supported_file "^en_US.UTF-8 UTF-8$";
      PathExists "/etc/locale.gen";
      FileReplace "/etc/locale.gen" (locale_gen_pattern "en_US.UTF-8 UTF-8")
                  "en_US.UTF-8 UTF-8" true;
      Which "locale-gen";
      CmdRunAll ["locale-gen"; "en_US.UTF-8 UTF-8"]]).
Proof.
  exact (proj2 (gen_locale_fallback_locale
                  (sample_host debian "" 0 ["^en_US.UTF-8 UTF-8$"] (inr [])
                               ["locale-gen"])
                  "en_US.UTF-8" false [] eq_refl eq_refl eq_refl eq_refl)).
Defined.

(** * Further properties *)

(** ** The parser of localectl, line by line *)

Lemma span_all_chars (p : ascii -> bool) (s a b : string) :
  span p s = (a, b) -> all_chars p a = true.
Proof.
  revert a b. induction s as [|c s IH]; simpl; intros a b H.
  - now inversion H.
  - pose proof (IH (fst (span p s)) (snd (span p s))
                   (surjective_pairing _)) as IH'.
    destruct (p c) eqn:E.
    + destruct (span p s) as [a' b']. inversion H; subst. simpl in *.
      now rewrite E.
    + now inversion H.
Qed.

Lemma re_match_param_key (col k v : string) :
  re_match_param col = Some (k, v) -> is_param_key k = true.
Proof.
  unfold re_match_param.
  destruct (span is_param_char col) as [key rest] eqn:Es.
  pose proof (span_all_chars _ _ _ _ Es) as Hk.
  destruct key as [|c key]; [discriminate|].
  destruct rest as [|r rest]; [discriminate|].
  destruct (Ascii.eqb r "="); [|discriminate].
  destruct (span (fun a => negb (Ascii.eqb a LF)) rest) as [val tail].
  destruct (String.eqb tail "" || String.eqb tail nl); [|discriminate].
  intros H. inversion H; subst. unfold is_param_key. now rewrite Hk.
Qed.

Lemma remove_char_gone (c : ascii) (s : string) :
  has_char c (remove_char c s) = false.
Proof.
  induction s as [|a s IH]; simpl; [reflexivity|].
  destruct (Ascii.eqb a c) eqn:E; [assumption|]. simpl. now rewrite E.
Qed.

Lemma remove_char_keeps_out (c d : ascii) (s : string) :
  has_char d s = false -> has_char d (remove_char c s) = false.
Proof.
  induction s as [|a s IH]; simpl; [reflexivity|].
  intros H. apply orb_false_iff in H as [Ha Hs].
  destruct (Ascii.eqb a c); [now apply IH|]. simpl. now rewrite Ha, IH.
Qed.

Lemma remove_char_absent (c : ascii) (s : string) :
  has_char c s = false -> remove_char c s = s.
Proof.
  induction s as [|a s IH]; simpl; [reflexivity|].
  intros H. apply orb_false_iff in H as [Ha Hs]. now rewrite Ha, IH.
Qed.

(** What one iteration can do: raise for want of [cur_param], leave the map
    alone, leave it alone and log the entry, or set one key. *)
Lemma parse_line_cases (st : parse_state) (line : string) (t : trace) :
  exists col c',
    parse_line st line t = (Raise (UnboundLocalError "cur_param"), t)
    \/ parse_line st line t = (Return (fst st, c'), t)
    \/ parse_line st line t
       = (Return (fst st, c'), (t ++ [LogError (odd_parameter_msg col)])%list)
    \/ exists k v,
         re_match_param col = Some (k, v)
         /\ parse_line st line t
            = (Return (dict_set (fst st) k (remove_char dquote v), c'), t).
Proof.
  destruct st as [d c]. unfold parse_line.
  destruct (split1_shape ":" line) as [[_ Hs]|[_ (a & b & Hs)]];
    rewrite Hs; simpl.
  - exists (strip line), c. destruct c as [p|]; [|now left].
    destruct (String.eqb p "System Locale"); run; [|now right; left].
    destruct (re_match_param (strip line)) as [[k v]|] eqn:E.
    + right; right; right. now exists k, v.
    + now right; right; left.
  - exists (strip b), (Some (strip a)).
    destruct (String.eqb (strip a) "System Locale"); run; [|now right; left].
    destruct (re_match_param (strip b)) as [[k v]|] eqn:E.
    + right; right; right. now exists k, v.
    + now right; right; left.
Qed.

Section ParserInvariant.

(** A property of the map that setting a parsed key keeps. *)
Variable P : dict -> Prop.
Hypothesis P_set :
  forall d k v, P d -> is_param_key k = true -> has_char dquote v = false ->
                P (dict_set d k v).

Lemma for_each_parse_keeps (lines : list string) :
  forall st t st' t',
    P (fst st) ->
    for_each parse_line st lines t = (Return st', t') -> P (fst st').
Proof.
  induction lines as [|line lines IH]; intros st t st' t' HP; cbn [for_each].
  - unfold ret. intros H. now inversion H; subst.
  - unfold bind.
    destruct (parse_line_cases st line t)
      as (col & c' & [E|[E|[E|(k & v & Hm & E)]]]); rewrite E.
    + discriminate.
    + now apply IH.
    + now apply IH.
    + apply IH. simpl. apply P_set; [assumption| |apply remove_char_gone].
      now apply (re_match_param_key col k v).
Qed.

Lemma parse_localectl_keeps (h : host) (t t' : trace) (params : dict) :
  P [] -> _parse_localectl h t = (Return params, t') -> P params.
Proof.
  intros H0. rewrite parse_localectl_eq.
  destruct (for_each parse_line ([], None) _ _) as [[st|e] t1] eqn:E;
    [|discriminate].
  intros H. inversion H; subst.
  now apply (for_each_parse_keeps _ ([], None) _ st t' H0 E).
Qed.

End ParserInvariant.



(** X2.  In a map that [_parse_localectl] returns, every key is one or more
    of the characters A to Z and the underscore, and no value holds a double
    quote. *)
Theorem parse_localectl_well_formed
  (h : host) (t t' : trace) (params : dict) :
  _parse_localectl h t = (Return params, t') ->
  Forall (fun kv => is_param_key (fst kv) = true
                    /\ has_char dquote (snd kv) = false) params.
Proof.
  apply parse_localectl_keeps; [|constructor].
  intros d k v Hd Hk Hv. induction Hd as [|[k' v'] d Hkv Hd IH]; simpl.
  - constructor; [now split|constructor].
  - destruct (String.eqb k' k); constructor; auto.
Qed.

Lemma parse_localectl_well_formed_witness :
  Forall (fun kv => is_param_key (fst kv) = true
                    /\ has_char dquote (snd kv) = false)
         [("LANG", "a"); ("LC_TIME", "b")].
Proof.
  exact (parse_localectl_well_formed
           (sample_host arch localectl_output 0 [] (inr []) []) []
           [CmdRun "localectl"] [("LANG", "a"); ("LC_TIME", "b")] eq_refl).
Defined.



Lemma for_each_parse_logs (lines : list string) :
  forall st t o t',
    for_each parse_line st lines t = (o, t') ->
    exists logs, t' = (t ++ logs)%list /\ forallb is_log logs = true.
Proof.
  induction lines as [|line lines IH]; intros st t o t'; cbn [for_each].
  - unfold ret. intros H. inversion H; subst. exists []. split; [|reflexivity].
    now rewrite app_nil_r.
  - unfold bind.
    destruct (parse_line_cases st line t)
      as (col & c' & [E|[E|[E|(k & v & Hm & E)]]]); rewrite E.
    + intros H. inversion H; subst. exists []. split; [|reflexivity].
      now rewrite app_nil_r.
    + apply IH.
    + intros H. destruct (IH _ _ _ _ H) as (logs & -> & Hl).
      exists (LogError (odd_parameter_msg col) :: logs).
      split; [now rewrite <- app_assoc|assumption].
    + apply IH.
Qed.

Lemma parse_localectl_trace (h : host) (t t' : trace) (o : outcome dict) :
  _parse_localectl h t = (o, t') ->
  exists logs,
    t' = (t ++ CmdRun "localectl" :: logs)%list
    /\ forallb is_log logs = true.
Proof.
  rewrite parse_localectl_eq.
  destruct (for_each parse_line ([], None) _ _) as [o1 t1] eqn:E.
  destruct (for_each_parse_logs _ _ _ _ _ E) as (logs & -> & Hl).
  intros H. exists logs. split; [|assumption].
  rewrite <- app_assoc in H. destruct o1; now inversion H.
Qed.

(** X1.  When the output of localectl is empty, or its first line has a
    colon, [_parse_localectl] returns a map, whatever the later lines hold:
    from the first line on [cur_param] is bound.  Its calls are then the one
    of localectl and entries of the log. *)
Theorem parse_localectl_returns_after_colon (h : host) (t : trace) :
  match splitlines (cmd_run h t "localectl") with
  | [] => True
  | line :: _ => has_char ":" line = true
  end ->
  exists params logs,
    _parse_localectl h t
    = (Return params, (t ++ CmdRun "localectl" :: logs)%list)
    /\ forallb is_log logs = true.
Proof.
  intros H. destruct (parse_localectl_returns h t H) as (params & t' & E).
  destruct (parse_localectl_trace h t t' (Return params) E)
    as (logs & -> & Hl).
  now exists params, logs.
Qed.

Lemma parse_localectl_returns_after_colon_witness :
  exists params logs,
    _parse_localectl (sample_host arch localectl_output 0 [] (inr []) []) []
    = (Return params, ([] ++ CmdRun "localectl" :: logs)%list)
    /\ forallb is_log logs = true.
Proof.
  exact (parse_localectl_returns_after_colon
           (sample_host arch localectl_output 0 [] (inr []) []) [] eq_refl).
Defined.

(** X4.  Whatever localectl prints and whether the parser returns or
    raises, [_parse_localectl] runs localectl once and after that only
    writes to the log: it runs no other command and touches no file. *)
Theorem parse_localectl_calls (h : host) (t t' : trace) (o : outcome dict) :
  _parse_localectl h t = (o, t') ->
  exists logs,
    t' = (t ++ CmdRun "localectl" :: logs)%list
    /\ forallb is_log logs = true.
Proof.
  intros H. destruct (parse_localectl_trace h t t' o H) as (logs & E & Hl).
  now exists logs.
Qed.

Lemma parse_localectl_calls_witness :
  exists logs,
    [CmdRun "localectl"; LogError (odd_parameter_msg "n/a")]
    = ([] ++ CmdRun "localectl" :: logs)%list
    /\ forallb is_log logs = true.
Proof.
  exact (parse_localectl_calls
           (sample_host arch "System Locale: n/a" 0 [] (inr []) []) []
           [CmdRun "localectl"; LogError (odd_parameter_msg "n/a")]
           (Return []) eq_refl).
Defined.

(** A line under a header that is not System Locale changes nothing. *)
Lemma parse_line_outside_block (d : dict) (p line : string) (t : trace) :
  p <> "System Locale" ->
  (forall a b, split1 ":" line = [a; b] -> strip a <> "System Locale") ->
  exists p',
    parse_line (d, Some p) line t = (Return (d, Some p'), t)
    /\ p' <> "System Locale".
Proof.
  intros Hp Hh. unfold parse_line.
  destruct (split1_shape ":" line) as [[_ Hs]|[_ (a & b & Hs)]];
    rewrite Hs; simpl.
  - exists p. apply String.eqb_neq in Hp. rewrite Hp.
    split; [reflexivity|now apply String.eqb_neq].
  - exists (strip a). specialize (Hh a b Hs).
    apply String.eqb_neq in Hh. rewrite Hh. split; [reflexivity|].
    now apply String.eqb_neq.
Qed.

Lemma for_each_outside_block (lines : list string) :
  forall (st : parse_state) p t,
    snd st = Some p ->
    p <> "System Locale" ->
    (forall line a b, In line lines -> split1 ":" line = [a; b] ->
                      strip a <> "System Locale") ->
    exists st', for_each parse_line st lines t = (Return st', t)
                /\ fst st' = fst st.
Proof.
  induction lines as [|line lines IH]; intros [d c] p t Hc Hp Hh;
    simpl in Hc; subst c; cbn [for_each].
  - now exists (d, Some p).
  - destruct (parse_line_outside_block d p line t Hp) as (p1 & E & Hp1).
    { intros a b. apply Hh. now left. }
    unfold bind. rewrite E.
    apply (IH (d, Some p1) p1 t eq_refl Hp1).
    intros l a b Hin. apply Hh. now right.
Qed.

(** X5.  When localectl prints something and no line of it has the header
    System Locale before its first colon, and the first line has a colon,
    the parser returns the empty map and logs nothing, and
    [_localectl_get] returns the empty string. *)
Theorem parse_localectl_without_block
  (h : host) (t : trace) (line : string) (lines : list string) :
  splitlines (cmd_run h t "localectl") = line :: lines ->
  has_char ":" line = true ->
  (forall l a b, In l (line :: lines) -> split1 ":" l = [a; b] ->
                 strip a <> "System Locale") ->
  _parse_localectl h t = (Return [], (t ++ [CmdRun "localectl"])%list)
  /\ _localectl_get h t = (Return "", (t ++ [CmdRun "localectl"])%list).
Proof.
  intros El Hc Hh.
  assert (E : _parse_localectl h t
              = (Return [], (t ++ [CmdRun "localectl"])%list)).
  { rewrite parse_localectl_eq, El. cbn [for_each]. unfold bind.
    destruct (split1_shape ":" line) as [[Hn _]|[_ (a & b & Hs)]];
      [congruence|].
    assert (Ha : strip a <> "System Locale") by (apply (Hh line a b); [now left|assumption]).
    destruct (parse_line ([], None) line (t ++ [CmdRun "localectl"])%list)
      as [o1 t1] eqn:E1.
    unfold parse_line in E1. rewrite Hs in E1. simpl in E1.
    apply String.eqb_neq in Ha. rewrite Ha in E1. apply String.eqb_neq in Ha.
    inversion E1; subst o1 t1.
    match goal with
    | |- context [for_each parse_line ?s lines ?tr] =>
        destruct (for_each_outside_block lines s (strip a) tr eq_refl Ha)
          as (st' & E2 & Hst)
    end.
    { intros l x y Hin. apply Hh. now right. }
    rewrite E2. simpl in Hst. now rewrite Hst. }
  split; [assumption|].
  unfold _localectl_get, bind. now rewrite E.
Qed.

Lemma parse_localectl_without_block_witness :
  _localectl_get
    (sample_host arch ("   VC Keymap: us" ++ nl ++ "  X11 Layout: de") 0
                 [] (inr []) []) []
  = (Return "", [CmdRun "localectl"]).
Proof.
  refine (proj2 (parse_localectl_without_block
                   (sample_host arch
                      ("   VC Keymap: us" ++ nl ++ "  X11 Layout: de") 0
                      [] (inr []) []) []
                   "   VC Keymap: us" ["  X11 Layout: de"]
                   eq_refl eq_refl _)).
  intros l a b [<-|[<-|[]]] H; inversion H; discriminate.
Defined.

(** ** Written by one function, read by another *)










Lemma remove_char_app (c : ascii) (a b : string) :
  remove_char c (a ++ b) = remove_char c a ++ remove_char c b.
Proof.
  induction a as [|x a IH]; simpl; [reflexivity|].
  destruct (Ascii.eqb x c); simpl; now rewrite IH.
Qed.








Lemma string_app_empty (s : string) : s ++ "" = s.
Proof. induction s as [|x s IH]; simpl; [reflexivity|now rewrite IH]. Qed.

Lemma lang_value_clean (out : string) :
  has_char "=" (lang_value out) = false
  /\ has_char dquote (lang_value out) = false.
Proof.
  unfold lang_value.
  destruct (nth_error (split "=" out) 1) as [f|] eqn:E; [|now split].
  split; [|apply remove_char_gone].
  apply remove_char_keeps_out.
  apply nth_error_In in E.
  exact (proj1 (Forall_forall _ _) (split_fields_no_sep "=" out) f E).
Qed.

Lemma lang_value_lang_line (locale : string) :
  has_char "=" locale = false ->
  lang_value (lang_line locale) = remove_char dquote locale.
Proof.
  intros H.
  change (lang_line locale) with ("LANG" ++ "=" ++ (dq ++ locale ++ dq)).
  rewrite lang_value_one_equals; [|reflexivity|].
  - rewrite remove_char_app. simpl. rewrite remove_char_app. simpl.
    apply string_app_empty.
  - simpl. rewrite has_char_app, H. reflexivity.
Qed.

(** X7.  The line that [set_locale] writes on RedHat and Debian is read
    back by [get_locale]: when grep prints that line for a locale without
    equals sign, [get_locale] returns the locale without its double quotes,
    hence the locale itself when it has none. *)
Theorem get_locale_reads_lang_line
  (h : host) (t : trace) (fam locale : string) :
  os_family (host_grains h) = Some fam ->
  contains "Arch" fam = false ->
  contains "RedHat" fam = true \/ contains "Debian" fam = true ->
  let cmd := if contains "RedHat" fam then grep_redhat else grep_debian in
  cmd_run h t cmd = lang_line locale ->
  has_char "=" locale = false ->
  get_locale h t
  = (Return (remove_char dquote locale), (t ++ [CmdRun cmd])%list)
  /\ (has_char dquote locale = false ->
      get_locale h t = (Return locale, (t ++ [CmdRun cmd])%list)).
Proof.
  intros Hf Ha Hfam cmd Hout He.
  assert (Hor : contains "RedHat" fam = true \/ contains "Debian" fam = true
                \/ contains "Gentoo" fam = false) by tauto.
  destruct (get_locale_reads_second_field h t fam Hf Ha Hor) as (E & _).
  assert (Hcmd : (if contains "RedHat" fam then grep_redhat
                  else if contains "Debian" fam then grep_debian else "")
                 = cmd).
  { subst cmd. destruct (contains "RedHat" fam); [reflexivity|].
    destruct Hfam as [H|H]; [discriminate|now rewrite H]. }
  rewrite Hcmd, Hout, (lang_value_lang_line _ He) in E.
  split; [assumption|].
  intros Hq. now rewrite (remove_char_absent _ _ Hq) in E.
Qed.

Lemma get_locale_reads_lang_line_witness :
  get_locale (sample_host redhat (lang_line "de_DE.UTF-8") 0 [] (inr []) [])
             []
  = (Return "de_DE.UTF-8", [CmdRun grep_redhat]).
Proof.
  exact (proj2 (get_locale_reads_lang_line
                  (sample_host redhat (lang_line "de_DE.UTF-8") 0
                               [] (inr []) []) [] "RedHat" "de_DE.UTF-8"
                  eq_refl eq_refl (or_introl eq_refl) eq_refl eq_refl)
               eq_refl).
Defined.

(** X8.  Off Arch and Gentoo, the value that [get_locale] returns holds
    neither an equals sign nor a double quote, whatever the command
    printed. *)
Theorem get_locale_value_clean
  (h : host) (t t' : trace) (fam v : string) :
  os_family (host_grains h) = Some fam ->
  contains "Arch" fam = false ->
  contains "RedHat" fam = true \/ contains "Debian" fam = true
  \/ contains "Gentoo" fam = false ->
  get_locale h t = (Return v, t') ->
  has_char "=" v = false /\ has_char dquote v = false.
Proof.
  intros Hf Ha Hfam H.
  destruct (get_locale_reads_second_field h t fam Hf Ha Hfam) as (E & _).
  rewrite E in H. inversion H; subst. apply lang_value_clean.
Qed.

Lemma get_locale_value_clean_witness :
  has_char "=" "a" = false /\ has_char dquote "a" = false.
Proof.
  exact (get_locale_value_clean
           (sample_host redhat ("LANG=" ++ dq ++ "a" ++ dq ++ "=b") 0
                        [] (inr []) [])
           [] [CmdRun grep_redhat] "RedHat" "a"
           eq_refl eq_refl (or_introl eq_refl) eq_refl).
Defined.

(** ** Generating a locale: outcomes *)

(** The validation returns, except where the directory cannot be listed;
    and it only looks things up. *)
Lemma gen_locale_validate_outcome
  (h : host) (locale : string) (t t1 : trace) (o : outcome validated) :
  gen_locale_validate h locale t = (o, t1) ->
  (exists evs, t1 = (t ++ evs)%list /\ forallb only_looks evs = true)
  /\ ((exists v, o = Return v)
      \/ (on_debian h || on_gentoo h = false
          /\ (exists ex, listdir h t (search_dir h) = inl ex)
          /\ o = Raise (CommandExecutionError (not_available locale)))).
Proof.
  destruct (on_debian h || on_gentoo h) eqn:Hfb.
  - rewrite (gen_locale_validate_file_eq h locale t Hfb). cbv zeta.
    destruct (negb _ && _); intros H; inversion H; subst;
      (split; [eexists; split; [reflexivity|reflexivity]|left; eauto]).
  - rewrite (gen_locale_validate_dir_eq h locale t Hfb). cbv zeta.
    destruct (listdir h t (search_dir h)) as [ex|names] eqn:El;
      intros H; inversion H; subst;
      (split; [eexists; split; [reflexivity|reflexivity]|]).
    + right. repeat split. now exists ex.
    + left. eauto.
Qed.

(** How a call of [gen_locale] can end. *)
Lemma gen_locale_outcome
  (h : host) (locale : string) (verbose : bool) (t : trace) :
  (exists ex,
      on_debian h || on_gentoo h = false
      /\ listdir h t (search_dir h) = inl ex
      /\ gen_locale h locale verbose t
         = (Raise (CommandExecutionError (not_available locale)),
            (t ++ [ListDir (search_dir h); LogError ex])%list))
  \/ (exists v t1,
         gen_locale_validate h locale t = (Return v, t1)
         /\ v_valid v = false
         /\ gen_locale h locale verbose t
            = (Return (GenBool false),
               (t1 ++ [LogError (not_found_in (v_locale v) (v_search v))])%list))
  \/ (exists v t1 t2,
         gen_locale_validate h locale t = (Return v, t1)
         /\ v_valid v = true
         /\ gen_locale h locale verbose t
            = (Raise (CommandExecutionError no_compiler), t2))
  \/ (exists v t1 t2 cmd,
         gen_locale_validate h locale t = (Return v, t1)
         /\ v_valid v = true
         /\ gen_locale h locale verbose t = run_compiler h cmd verbose t2).
Proof.
  destruct (gen_locale_validate h locale t) as [o t1] eqn:Ev.
  destruct (gen_locale_validate_outcome h locale t t1 o Ev)
    as (_ & [(v & ->)|(Hfb & (ex & El) & ->)]).
  - right. rewrite (gen_locale_after_validate _ _ verbose _ _ _ Ev).
    destruct (v_valid v) eqn:Hv.
    + right. rewrite gen_locale_compile_eq. cbv zeta.
      destruct (which h _ "locale-gen").
      * right. do 4 eexists. split; [reflexivity|].
        split; [exact Hv|reflexivity].
      * destruct (which h _ "localedef").
        -- right. do 4 eexists. split; [reflexivity|].
           split; [exact Hv|reflexivity].
        -- left. do 3 eexists. split; [reflexivity|].
           split; [exact Hv|reflexivity].
    + left. exists v, t1. split; [reflexivity|].
      split; [exact Hv|reflexivity].
  - left. exists ex. split; [assumption|]. split; [assumption|].
    unfold gen_locale, bind. rewrite Ev.
    rewrite (gen_locale_validate_dir_eq h locale t Hfb), El in Ev.
    now inversion Ev.
Qed.

(** X12.  What [gen_locale] returns goes with [verbose]: without it the
    result is a boolean, never the result of the command; with it the
    result is that of the command or, for a locale that is not validated,
    the boolean false, and never the boolean true. *)
Theorem gen_locale_result_kind
  (h : host) (locale : string) (verbose : bool) (t : trace) (r : gen_result) :
  fst (gen_locale h locale verbose t) = Return r ->
  match r with
  | GenBool b => verbose = false \/ b = false
  | GenResult _ => verbose = true
  end.
Proof.
  destruct (gen_locale_outcome h locale verbose t)
    as [(ex & Hfb & El & E)
       |[(v & t1 & Ev & Hv & E)
        |[(v & t1 & t2 & Ev & Hv & E)|(v & t1 & t2 & cmd & Ev & Hv & E)]]];
    rewrite E; simpl.
  - discriminate.
  - intros H. inversion H. now right.
  - discriminate.
  - rewrite run_compiler_eq. simpl.
    destruct verbose; intros H; inversion H; auto.
Qed.

Lemma gen_locale_result_kind_witness :
  true = false \/ false = false.
Proof.
  exact (gen_locale_result_kind
           (sample_host gentoo "" 0 [] (inr []) ["locale-gen"])
           "xx_YY.UTF-8" true [] (GenBool false) eq_refl).
Defined.

(** X13.  For a locale that the validation does not accept, or when the
    validation raises, [gen_locale] only looks things up and logs: it edits
    no file and runs no command. *)
Theorem gen_locale_rejects_without_effect
  (h : host) (locale : string) (verbose : bool) (t : trace) :
  (forall v t1, gen_locale_validate h locale t = (Return v, t1) ->
                v_valid v = false) ->
  exists evs,
    snd (gen_locale h locale verbose t) = (t ++ evs)%list
    /\ forallb only_looks evs = true.
Proof.
  intros Hinv.
  destruct (gen_locale_validate h locale t) as [o t1] eqn:Ev.
  destruct (gen_locale_validate_outcome h locale t t1 o Ev)
    as ((evs & -> & Hevs) & [(v & ->)|(Hfb & (ex & El) & ->)]).
  - rewrite (gen_locale_after_validate _ _ verbose _ _ _ Ev).
    rewrite (Hinv v _ eq_refl). simpl.
    exists (evs ++ [LogError (not_found_in (v_locale v) (v_search v))])%list.
    split; [now rewrite app_assoc|].
    rewrite forallb_app, Hevs. reflexivity.
  - exists evs. split; [|assumption].
    unfold gen_locale, bind. now rewrite Ev.
Qed.

Lemma gen_locale_rejects_without_effect_witness :
  exists evs,
    snd (gen_locale (sample_host redhat "" 0 [] (inr ["en_US"]) ["localedef"])
                    "xx_YY.UTF-8" false [])
    = ([] ++ evs)%list
    /\ forallb only_looks evs = true.
Proof.
  apply (gen_locale_rejects_without_effect
           (sample_host redhat "" 0 [] (inr ["en_US"]) ["localedef"])
           "xx_YY.UTF-8" false []).
  intros v t1 H. inversion H. reflexivity.
Defined.

(** ** The list of available locales *)

(** X14.  [list_avail] runs locale -a once and cuts its output at the line
    feeds: the list is never empty, no entry holds a line feed, joining the
    entries with line feeds gives the output back, and an output that ends
    with a line feed gives a last entry that is the empty string. *)
Theorem list_avail_fields (h : host) (t : trace) :
  let out := cmd_run h t "locale -a" in
  exists entries,
    list_avail h t = (Return entries, (t ++ [CmdRun "locale -a"])%list)
    /\ entries <> []
    /\ Forall (fun x => has_char LF x = false) entries
    /\ join nl entries = out
    /\ (forall body, out = body ++ nl ->
                     entries = (split LF body ++ [""])%list).
Proof.
  intros out. exists (split LF out). split; [reflexivity|].
  split; [apply split_nonempty|].
  split; [apply split_fields_no_sep|].
  split; [apply join_split|].
  intros body ->. apply split_app_sep.
Qed.

Lemma list_avail_fields_witness :
  exists entries,
    list_avail (sample_host debian ("C" ++ nl ++ "en_US.utf8" ++ nl) 0
                            [] (inr []) []) []
    = (Return entries, [CmdRun "locale -a"])
    /\ entries <> []
    /\ Forall (fun x => has_char LF x = false) entries
    /\ join nl entries = "C" ++ nl ++ "en_US.utf8" ++ nl
    /\ (forall body, "C" ++ nl ++ "en_US.utf8" ++ nl = body ++ nl ->
                     entries = (split LF body ++ [""])%list).
Proof.
  exact (list_avail_fields
           (sample_host debian ("C" ++ nl ++ "en_US.utf8" ++ nl) 0
                        [] (inr []) []) []).
Defined.

From Stdlib Require Import Permutation.

Section ScanOrder.

Variable normalize : string -> outcome string.
Variable n : string.

Lemma existsb_permutation (f : string -> bool) (l l' : list string) :
  Permutation l l' -> existsb f l = existsb f l'.
Proof.
  induction 1 as [|x l l' _ IH|x y l|l l' l'' _ IH1 _ IH2]; simpl.
  - reflexivity.
  - now rewrite IH.
  - now rewrite !orb_assoc, (orb_comm (f y)).
  - now rewrite IH1.
Qed.

Lemma forallb_permutation (f : string -> bool) (l l' : list string) :
  Permutation l l' -> forallb f l = forallb f l'.
Proof.
  induction 1 as [|x l l' _ IH|x y l|l l' l'' _ IH1 _ IH2]; simpl.
  - reflexivity.
  - now rewrite IH.
  - now rewrite !andb_assoc, (andb_comm (f y)).
  - now rewrite IH1.
Qed.

Lemma next_match_permutation (l l' : list string) :
  Permutation l l' ->
  forallb (normalizes normalize) l = true ->
  next_match normalize n l = next_match normalize n l'.
Proof.
  intros Hp Hl.
  rewrite (next_match_total _ _ l Hl).
  rewrite (next_match_total _ _ l')
    by now rewrite <- (forallb_permutation _ _ _ Hp).
  now rewrite (existsb_permutation _ _ _ Hp).
Qed.

End ScanOrder.

(** X15.  When every entry of the list normalises, the order of the list
    does not matter to [avail]: on two hosts with one normaliser whose
    lists of available locales are permutations of each other, a request
    that normalises has the same result. *)
Theorem avail_order_independent
  (h h' : host) (locale n : string) (t t' : trace) :
  normalize_locale h' = normalize_locale h ->
  normalize_locale h locale = Return n ->
  Permutation (split LF (cmd_run h t "locale -a"))
              (split LF (cmd_run h' t' "locale -a")) ->
  forallb (normalizes (normalize_locale h))
          (split LF (cmd_run h t "locale -a")) = true ->
  fst (avail h locale t) = fst (avail h' locale t').
Proof.
  intros Hn Hl Hp Hall.
  rewrite (avail_eq h locale n t Hl).
  rewrite (avail_eq h' locale n t') by now rewrite Hn.
  simpl. rewrite Hn. now apply next_match_permutation.
Qed.

Lemma avail_order_independent_witness :
  fst (avail (sample_host debian ("C" ++ nl ++ "en_US.utf8") 0 [] (inr []) [])
             "en_US.UTF-8" [])
  = fst (avail (sample_host debian ("en_US.utf8" ++ nl ++ "C") 0
                            [] (inr []) [])
               "en_US.UTF-8" []).
Proof.
  apply (avail_order_independent
           (sample_host debian ("C" ++ nl ++ "en_US.utf8") 0 [] (inr []) [])
           (sample_host debian ("en_US.utf8" ++ nl ++ "C") 0 [] (inr []) [])
           "en_US.UTF-8" "en_us.utf8" [] [] eq_refl eq_refl).
  - apply perm_swap.
  - reflexivity.
Defined.

(** ** What the reading and the setting of the locale call *)

(** X17.  [get_locale] only reads: it makes no call at all when the grains
    have no os_family, and otherwise runs one command, which is localectl,
    one of the two greps, eselect with show, or the empty command, and
    after it only writes to the log. *)
Theorem get_locale_only_reads
  (h : host) (t t' : trace) (o : outcome string) :
  get_locale h t = (o, t') ->
  (os_family (host_grains h) = None /\ t' = t)
  \/ exists cmd logs,
       t' = (t ++ CmdRun cmd :: logs)%list
       /\ forallb is_log logs = true
       /\ In cmd ["localectl"; grep_redhat; grep_debian;
                  "eselect --brief locale show"; ""].
Proof.
  unfold get_locale, grain_os_family, bind.
  destruct (os_family (host_grains h)) as [fam|]; unfold ret at 1, raise.
  - intros H. right.
    destruct (contains "Arch" fam).
    + unfold _localectl_get, bind in H.
      destruct (_parse_localectl h t) as [op tp] eqn:Ep.
      destruct (parse_localectl_trace h t tp op Ep) as (logs & -> & Hl).
      exists "localectl", logs.
      split; [destruct op; now inversion H|]. split; [assumption|now left].
    + destruct (contains "RedHat" fam);
        [|destruct (contains "Debian" fam);
          [|destruct (contains "Gentoo" fam)]];
        inversion H; subst; eexists _, []; (split; [reflexivity|]);
        (split; [reflexivity|]); simpl; tauto.
  - intros H. inversion H. now left.
Qed.

Lemma get_locale_only_reads_witness :
  (os_family gentoo = None /\ [CmdRun "eselect --brief locale show"] = [])
  \/ exists cmd logs,
       [CmdRun "eselect --brief locale show"] = ([] ++ CmdRun cmd :: logs)%list
       /\ forallb is_log logs = true
       /\ In cmd ["localectl"; grep_redhat; grep_debian;
                  "eselect --brief locale show"; ""].
Proof.
  exact (get_locale_only_reads
           (sample_host gentoo " en_US.utf8 " 0 [] (inr []) []) []
           [CmdRun "eselect --brief locale show"] (Return "en_US.utf8")
           eq_refl).
Defined.

Ltac calls_ok :=
  repeat match goal with
         | |- Forall _ (_ :: _) => apply Forall_cons; [simpl; auto 6|]
         | |- Forall _ [] => apply Forall_nil
         end.

Lemma logs_are_set_locale_calls (locale : string) (logs : list event) :
  forallb is_log logs = true -> Forall (set_locale_call locale) logs.
Proof.
  induction logs as [|e logs IH]; simpl; [constructor|].
  intros H. apply andb_true_iff in H as [He Hl].
  constructor; [|now apply IH].
  destruct e; try discriminate. exact I.
Qed.

(** X18.  Whatever the host, the calls of [set_locale] for a locale are
    commands, log entries, the search for update-locale, the test for and
    the creation of [/etc/sysconfig/i18n], and replacements in
    [/etc/sysconfig/i18n] or [/etc/default/locale] of the line that matches
    the LANG pattern by the LANG line of that locale, appended when no line
    matches.  It writes nothing else to a file. *)
Theorem set_locale_calls
  (h : host) (locale : string) (t t' : trace) (o : outcome bool) :
  set_locale h locale t = (o, t') ->
  exists evs,
    t' = (t ++ evs)%list /\ Forall (set_locale_call locale) evs.
Proof.
  unfold set_locale, grain_os_family, bind.
  destruct (os_family (host_grains h)) as [fam|]; unfold ret at 1, raise.
  - destruct (contains "Arch" fam).
    + unfold _localectl_set, bind.
      destruct (_parse_localectl h t) as [op tp] eqn:Ep.
      destruct (parse_localectl_trace h t tp op Ep) as (logs & -> & Hl).
      pose proof (logs_are_set_locale_calls locale logs Hl) as HF.
      destruct op as [params|e]; unfold call, ret; intros H; inversion H.
      * eexists (CmdRun "localectl" :: logs ++ [CmdRetcode _])%list.
        split; [now rewrite <- app_assoc|].
        constructor; [exact I|]. apply Forall_app. split; [assumption|].
        constructor; [exact I|constructor].
      * exists (CmdRun "localectl" :: logs). split; [reflexivity|].
        constructor; [exact I|assumption].
    + destruct (contains "RedHat" fam).
      * unfold call, ret.
        destruct (file_exists h t "/etc/sysconfig/i18n"); simpl;
          intros H; inversion H; rewrite <- !app_assoc; simpl;
          eexists; (split; [reflexivity|]); calls_ok.
      * destruct (contains "Debian" fam).
        -- unfold call at 1.
           destruct (which h t "update-locale"); unfold call, ret; simpl;
             intros H; inversion H; rewrite <- ?app_assoc; simpl;
             eexists; (split; [reflexivity|]); calls_ok.
        -- destruct (contains "Gentoo" fam); unfold call, ret; simpl;
             intros H; inversion H.
           ++ eexists. split; [reflexivity|]. calls_ok.
           ++ exists []. split; [now rewrite app_nil_r|constructor].
  - intros H. inversion H. exists []. split; [now rewrite app_nil_r|constructor].
Qed.

Lemma set_locale_calls_witness :
  exists evs,
    [Which "update-locale"; CmdRun "/usr/sbin/update-locale";
     FileReplace "/etc/default/locale" lang_pattern (lang_line "C") true]
    = ([] ++ evs)%list
    /\ Forall (set_locale_call "C") evs.
Proof.
  exact (set_locale_calls
           (sample_host debian "" 0 [] (inr []) ["update-locale"]) "C" []
           _ (Return true) eq_refl).
Defined.

(** ** Generating a locale: what reaches the compiler *)

(** X19.  A locale that [gen_locale] compiles is never dropped on the way:
    whenever the steps after the validation run a compiler for it, the
    locale is an argument of the command, or the registration step before
    has written it to a file (which is how it reaches locale-gen on
    Ubuntu).  When no compiler is run, the steps raise. *)
Theorem gen_locale_compile_passes_locale
  (h : host) (locale : string) (i : locale_info) (verbose : bool)
  (t t' : trace) (o : outcome gen_result) :
  gen_locale_compile h locale i verbose t = (o, t') ->
  let reg := register_events h (path_exists h t "/etc/locale.gen") locale i in
  (o = Raise (CommandExecutionError no_compiler))
  \/ exists cmd rest,
       t' = (t ++ reg ++ rest)%list
       /\ In (CmdRunAll cmd) rest
       /\ (In locale cmd
           \/ exists path pattern,
                In (FileReplace path pattern locale true) reg).
Proof.
  intros H reg. rewrite gen_locale_compile_eq in H. cbv zeta in H.
  fold reg in H.
  destruct (which h (t ++ reg)%list "locale-gen").
  - right. rewrite run_compiler_eq in H. cbv zeta in H. inversion H.
    exists (locale_gen_cmd h locale). eexists.
    split; [rewrite <- !app_assoc; reflexivity|].
    split; [unfold compiler_events; simpl; auto|].
    unfold locale_gen_cmd, reg, register_events.
    destruct (on_ubuntu h) eqn:Hu; simpl.
    + right. destruct (path_exists h t "/etc/locale.gen").
      * do 2 eexists. right. left. reflexivity.
      * do 2 eexists. right. right. left. reflexivity.
    + left. right. apply in_or_app. right. now left.
  - destruct (which h ((t ++ reg) ++ [Which "locale-gen"])%list "localedef").
    + right. rewrite run_compiler_eq in H. cbv zeta in H. inversion H.
      exists (localedef_cmd locale i verbose). eexists.
      split; [rewrite <- !app_assoc; reflexivity|].
      split; [unfold compiler_events; simpl; auto|].
      left. unfold localedef_cmd. simpl. tauto.
    + left. now inversion H.
Qed.

Lemma gen_locale_compile_passes_locale_witness :
  let h := sample_host ubuntu "" 0 [] (inr []) ["locale-gen"] in
  let reg := register_events h true "en_US.UTF-8" (sample_split "en_US.UTF-8") in
  (Return (GenBool true) = Raise (CommandExecutionError no_compiler))
  \/ exists cmd rest,
       [PathExists "/etc/locale.gen";
        FileReplace "/etc/locale.gen" (locale_gen_pattern "en_US.UTF-8")
                    "en_US.UTF-8" true;
        Which "locale-gen"; CmdRunAll ["locale-gen"]]
       = ([] ++ reg ++ rest)%list
       /\ In (CmdRunAll cmd) rest
       /\ (In "en_US.UTF-8" cmd
           \/ exists path pattern,
                In (FileReplace path pattern "en_US.UTF-8" true) reg).
Proof.
  exact (gen_locale_compile_passes_locale
           (sample_host ubuntu "" 0 [] (inr []) ["locale-gen"])
           "en_US.UTF-8" (sample_split "en_US.UTF-8") false [] _ _ eq_refl).
Defined.

(** X20.  Off Debian and Gentoo the validation looks at the language and
    the territory only: two locales that [split_locale] gives the same
    language and the same territory are both valid or both not, whatever
    their codesets and charmaps. *)
Theorem gen_locale_validate_directory_ignores_codeset
  (h : host) (locale1 locale2 : string) (t t1 t2 : trace)
  (v1 v2 : validated) :
  on_debian h || on_gentoo h = false ->
  language (split_locale h locale1) = language (split_locale h locale2) ->
  territory (split_locale h locale1) = territory (split_locale h locale2) ->
  gen_locale_validate h locale1 t = (Return v1, t1) ->
  gen_locale_validate h locale2 t = (Return v2, t2) ->
  v_valid v1 = v_valid v2 /\ t1 = t2.
Proof.
  intros Hfb Hl Ht.
  rewrite !(gen_locale_validate_dir_eq h _ t Hfb). cbv zeta.
  unfold lang_territory. rewrite Hl, Ht.
  destruct (listdir h t (search_dir h)); [discriminate|].
  intros H1 H2. inversion H1; inversion H2; subst. now split.
Qed.

Lemma gen_locale_validate_directory_ignores_codeset_witness :
  true = true
  /\ [ListDir "/usr/share/i18n/locales"] = [ListDir "/usr/share/i18n/locales"].
Proof.
  exact (gen_locale_validate_directory_ignores_codeset
           (sample_host redhat "" 0 [] (inr ["en_US"]) ["localedef"])
           "en_US.UTF-8" "en_US.ISO-8859-1" [] _ _
           (mk_validated true "en_US.UTF-8" (sample_split "en_US.UTF-8")
                         "/usr/share/i18n/locales")
           (mk_validated true "en_US.ISO-8859-1"
                         (sample_split "en_US.ISO-8859-1")
                         "/usr/share/i18n/locales")
           eq_refl eq_refl eq_refl eq_refl eq_refl).
Defined.
